(** * uuid6: draft version 6 and 7 UUIDs

    A shallow embedding of [src/uuid6/__init__.py] together with the parts
    of the Python runtime it relies on ([int] arithmetic, true division,
    [math.ceil], the standard [uuid.UUID] accessors and string rendering),
    followed by the properties of the generators, the constructor and the
    field readers.

    Python integers are unbounded, so they are [Z]; [&], [|], [~], [<<]
    and [>>] are [Z.land], [Z.lor], [Z.lnot], [Z.shiftl] and [Z.shiftr]
    (two's complement on negative numbers, as in Python); [//] and [%]
    are [Z.div] and [Z.modulo] (both floor, as in Python). *)

From Stdlib Require Import ZArith Lia List Bool String Ascii Btauto Sorted.
From Stdlib Require Import SpecFloat.
From coqutil Require Import Z.bitblast.
Import ListNotations.
Local Open Scope Z_scope.

(** ** Python runtime *)

Module Py.

(** The exceptions that the modelled code can raise. *)
Inductive exn : Type :=
| ValueError (msg : string)
| ZeroDivisionError
| OverflowError.

Inductive result (A : Type) : Type :=
| Ok (a : A)
| Raise (e : exn).
Arguments Ok {A} a.
Arguments Raise {A} e.

Definition bind {A B} (r : result A) (k : A -> result B) : result B :=
  match r with
  | Ok a => k a
  | Raise e => Raise e
  end.

Definition raises {A} (r : result A) : bool :=
  match r with
  | Ok _ => false
  | Raise _ => true
  end.

(** [divmod(a, b)] for a non-zero [b]. *)
Definition divmod (a b : Z) : Z * Z := (a / b, a mod b).

(** *** Floats

    A Python [float] is an IEEE 754 binary64 number: [spec_float] with
    precision 53 and maximal exponent 1024. *)

Definition prec : Z := 53.
Definition emax : Z := 1024.

(** An integer as an exact (not yet rounded) operand of a division. *)
Definition float_of_exact (a : Z) : spec_float :=
  match a with
  | Z0 => S754_zero false
  | Zpos p => S754_finite false p 0
  | Zneg p => S754_finite true p 0
  end.

(** [a / b] on two [int]s: CPython's true division returns the binary64
    number nearest to the exact quotient (ties to even), whatever the
    size of the operands; [SFdiv] computes exactly that rounding from
    the two integers.  A zero divisor raises [ZeroDivisionError] and a
    quotient too large for a float raises [OverflowError]. *)
Definition int_truediv (a b : Z) : result spec_float :=
  if b =? 0 then Raise ZeroDivisionError
  else
    match SFdiv prec emax (float_of_exact a) (float_of_exact b) with
    | S754_infinity _ => Raise OverflowError
    | S754_nan => Raise OverflowError
    | q => Ok q
    end.

(** [math.ceil(x)] on a float: the least integer not below [x], exactly. *)
Definition math_ceil (x : spec_float) : result Z :=
  match x with
  | S754_zero _ => Ok 0
  | S754_infinity _ => Raise OverflowError
  | S754_nan => Raise (ValueError "cannot convert float NaN to integer")
  | S754_finite s m e =>
      let n := if s then Zneg m else Zpos m in
      Ok (if 0 <=? e then n * 2 ^ e else - ((- n) / 2 ^ (- e)))
  end.

(** *** Strings *)

Definition hex_digit (d : Z) : ascii :=
  nth (Z.to_nat d)
      (list_ascii_of_string "0123456789abcdef") "0"%char.

(** ['%0wx' % n] for [0 <= n < 16 ^ w]: [w] lower-case hexadecimal
    digits, most significant first. *)
Fixpoint hex_fixed (w : nat) (n : Z) : string :=
  match w with
  | O => EmptyString
  | S w' =>
      String (hex_digit (Z.land (Z.shiftr n (4 * Z.of_nat w')) 0xf))
             (hex_fixed w' n)
  end.

(** The slice [s[a:b]] for [0 <= a <= b]. *)
Definition slice (s : string) (a b : nat) : string :=
  substring a (b - a) s.

End Py.
Import Py.

Notation "x <- r ;; k" := (Py.bind r (fun x => k))
  (at level 61, r at next level, right associativity).

(** ** The standard library's [uuid.UUID], as far as [DraftUUID] uses it *)

Module StdUUID.

(** A UUID object holds one attribute, its 128-bit integer. *)
Record UUID : Type := mkUUID { int : Z }.

(** [UUID.__init__(self, int=int)]: the other arguments are absent. *)
Definition __init__ (int : Z) : result UUID :=
  if negb ((0 <=? int) && (int <? Z.shiftl 1 128))
  then Raise (ValueError "int is out of range (need a 128-bit value)")
  else Ok (mkUUID int).

Definition time_low (u : UUID) : Z := Z.shiftr (int u) 96.
Definition time_mid (u : UUID) : Z := Z.land (Z.shiftr (int u) 80) 0xffff.
Definition time_hi_version (u : UUID) : Z :=
  Z.land (Z.shiftr (int u) 64) 0xffff.
Definition clock_seq_hi_variant (u : UUID) : Z :=
  Z.land (Z.shiftr (int u) 56) 0xff.

Inductive variant_t : Type :=
| RESERVED_NCS | RFC_4122 | RESERVED_MICROSOFT | RESERVED_FUTURE.

Definition variant (u : UUID) : variant_t :=
  if Z.land (int u) (Z.shiftl 0x8000 48) =? 0 then RESERVED_NCS
  else if Z.land (int u) (Z.shiftl 0x4000 48) =? 0 then RFC_4122
  else if Z.land (int u) (Z.shiftl 0x2000 48) =? 0 then RESERVED_MICROSOFT
  else RESERVED_FUTURE.

(** [UUID.version]: [None] unless the variant is RFC 4122. *)
Definition version (u : UUID) : option Z :=
  match variant u with
  | RFC_4122 => Some (Z.land (Z.shiftr (int u) 76) 0xf)
  | _ => None
  end.

(** [self.version == k] for an integer [k]. *)
Definition version_is (u : UUID) (k : Z) : bool :=
  match version u with
  | Some v => v =? k
  | None => false
  end.

(** [UUID.time], the version-1 field order. *)
Definition time (u : UUID) : Z :=
  Z.lor (Z.lor (Z.shiftl (Z.land (time_hi_version u) 0x0fff) 48)
               (Z.shiftl (time_mid u) 32))
        (time_low u).

(** [UUID.__str__]: ['%032x' % self.int] cut into 8-4-4-4-12. *)
Definition __str__ (u : UUID) : string :=
  let hex := hex_fixed 32 (int u) in
  (slice hex 0 8 ++ "-" ++ slice hex 8 12 ++ "-" ++ slice hex 12 16
     ++ "-" ++ slice hex 16 20 ++ "-" ++ slice hex 20 32)%string.

End StdUUID.
Import StdUUID.

(** ** Module-level helpers of [uuid6] *)

(** [math.ceil(value * 10 ** 9 / 2 ** 30)]: the quotient is a float. *)
Definition _subsec_decode (value : Z) : result Z :=
  q <- int_truediv (value * 10 ^ 9) (2 ^ 30) ;;
  math_ceil q.

(** [value * 2 ** 30 // 10 ** 9]. *)
Definition _subsec_encode (value : Z) : Z :=
  value * 2 ^ 30 / 10 ^ 9.

(** ** [class DraftUUID(UUID)] *)

Module DraftUUID.

(** [DraftUUID.__init__(self, int, version=None)]. *)
Definition __init__ (int : Z) (version : option Z) : result UUID :=
  if negb ((0 <=? int) && (int <? Z.shiftl 1 128))
  then Raise (ValueError "int is out of range (need a 128-bit value)")
  else
    match version with
    | None => StdUUID.__init__ int
    | Some version =>
        if negb ((6 <=? version) && (version <=? 7))
        then Raise (ValueError "illegal version number")
        else
          (* Set the variant to RFC 4122. *)
          let int := Z.land int (Z.lnot (Z.shiftl 0xC000 48)) in
          let int := Z.lor int (Z.shiftl 0x8000 48) in
          (* Set the version number. *)
          let int := Z.land int (Z.lnot (Z.shiftl 0xF000 64)) in
          let int := Z.lor int (Z.shiftl version 76) in
          StdUUID.__init__ int
    end.

(** Lines 25-29 of [__init__] on their own: what the constructor does to
    an accepted integer when a version is given. *)
Definition stamp (int version : Z) : Z :=
  let int := Z.land int (Z.lnot (Z.shiftl 0xC000 48)) in
  let int := Z.lor int (Z.shiftl 0x8000 48) in
  let int := Z.land int (Z.lnot (Z.shiftl 0xF000 64)) in
  let int := Z.lor int (Z.shiftl version 76) in
  int.

Definition subsec (u : UUID) : Z :=
  Z.lor (Z.lor (Z.shiftl (Z.land (time_mid u) 0x0FFF) 18)
               (Z.shiftl (Z.land (time_hi_version u) 0x0FFF) 6))
        (Z.land (clock_seq_hi_variant u) 0x3F).

Definition unixts (u : UUID) : Z :=
  Z.lor (Z.shiftl (time_low u) 4) (Z.shiftr (time_mid u) 12).

Definition time (u : UUID) : result Z :=
  if version_is u 6 then
    Ok (Z.lor (Z.lor (Z.shiftl (time_low u) 28)
                     (Z.shiftl (time_mid u) 12))
              (Z.land (time_hi_version u) 0x0FFF))
  else if version_is u 7 then
    ns <- _subsec_decode (subsec u) ;;
    Ok (unixts u * 10 ^ 9 + ns)
  else Ok (StdUUID.time u).

End DraftUUID.

(** The bit positions that [stamp] writes: the variant bits 62-63 and the
    version nibble 76-79. *)
Definition tag_position (n : Z) : bool :=
  (n =? 62) || (n =? 63) || ((76 <=? n) && (n <? 80)).

(** The [width] bits of [x] from bit [lo] upwards, as a number. *)
Definition bit_field (x lo width : Z) : Z :=
  Z.land (Z.shiftr x lo) (Z.ones width).

(** ** The generators *)

(** The two module-level globals, [None] until the first call. *)
Record ClockState : Type := mkClockState {
  _last_v6_timestamp : option Z;
  _last_v7_timestamp : option Z
}.

Definition process_start : ClockState := mkClockState None None.

(** What one generator call reads from its environment: the value of
    [time.time_ns()] and, for each [k] it asks for, the value of
    [secrets.randbits(k)]. *)
Record Env : Type := mkEnv {
  time_ns : Z;
  randbits : Z -> Z
}.

(** [secrets.randbits(k)] returns a non-negative integer of [k] bits. *)
Definition randbits_ok (env : Env) (k : Z) : Prop :=
  0 <= randbits env k < 2 ^ k.

Definition _getrandbits (env : Env) (k : Z) : Z := randbits env k.

(** [uuid6(clock_seq=None)], from the state of the globals to their new
    state and the returned UUID (or the exception of the constructor). *)
Definition uuid6 (env : Env) (clock_seq : option Z) (st : ClockState)
  : ClockState * result UUID :=
  let nanoseconds := time_ns env in
  (* 0x01b21dd213814000 is the number of 100-ns intervals between the
     UUID epoch 1582-10-15 00:00:00 and the Unix epoch 1970-01-01 00:00:00. *)
  let timestamp := nanoseconds / 100 + 0x01B21DD213814000 in
  let timestamp :=
    match _last_v6_timestamp st with
    | Some last => if timestamp <=? last then last + 1 else timestamp
    | None => timestamp
    end in
  let st := mkClockState (Some timestamp) (_last_v7_timestamp st) in
  let clock_seq :=
    match clock_seq with
    | None => _getrandbits env 14
    | Some clock_seq => clock_seq
    end in
  let node := _getrandbits env 48 in
  let time_high_and_time_mid := Z.land (Z.shiftr timestamp 12) 0xFFFFFFFFFFFF in
  let time_low_and_version := Z.land timestamp 0x0FFF in
  let uuid_int := Z.shiftl time_high_and_time_mid 80 in
  let uuid_int := Z.lor uuid_int (Z.shiftl time_low_and_version 64) in
  let uuid_int := Z.lor uuid_int (Z.shiftl (Z.land clock_seq 0x3FFF) 48) in
  let uuid_int := Z.lor uuid_int node in
  (st, DraftUUID.__init__ uuid_int (Some 6)).

(** [uuid7()]. *)
Definition uuid7 (env : Env) (st : ClockState) : ClockState * result UUID :=
  let nanoseconds := time_ns env in
  let nanoseconds :=
    match _last_v7_timestamp st with
    | Some last => if nanoseconds <=? last then last + 1 else nanoseconds
    | None => nanoseconds
    end in
  let st := mkClockState (_last_v6_timestamp st) (Some nanoseconds) in
  let '(timestamp_s, timestamp_ns) := divmod nanoseconds (10 ^ 9) in
  let subsec := _subsec_encode timestamp_ns in
  let subsec_a := Z.shiftr subsec 18 in
  let subsec_b := Z.land (Z.shiftr subsec 6) 0x0FFF in
  let subsec_c := Z.land subsec 0x3F in
  let rand := _getrandbits env 56 in
  let uuid_int := Z.shiftl (Z.land timestamp_s 0x0FFFFFFFFF) 92 in
  let uuid_int := Z.lor uuid_int (Z.shiftl subsec_a 80) in
  let uuid_int := Z.lor uuid_int (Z.shiftl subsec_b 64) in
  let uuid_int := Z.lor uuid_int (Z.shiftl subsec_c 56) in
  let uuid_int := Z.lor uuid_int rand in
  (st, DraftUUID.__init__ uuid_int (Some 7)).

(** *** The parts of the generators, named

    The definitions below repeat pieces of [uuid6] and [uuid7] so that
    properties can speak about them; [uuid6_parts] and [uuid7_parts]
    state that the generators are made of exactly these pieces. *)

(** The watermark test of both generators (lines 84-85 and 111-112):
    [if last is not None and t <= last: t = last + 1]. *)
Definition advance (last : option Z) (candidate : Z) : Z :=
  match last with
  | Some w => if candidate <=? w then w + 1 else candidate
  | None => candidate
  end.

(** Lines 80-85 of [uuid6]: the timestamp that the call issues. *)
Definition uuid6_timestamp (env : Env) (st : ClockState) : Z :=
  let nanoseconds := time_ns env in
  let timestamp := nanoseconds / 100 + 0x01B21DD213814000 in
  advance (_last_v6_timestamp st) timestamp.

(** Lines 90-95 of [uuid6]: the integer handed to the constructor. *)
Definition uuid6_int (timestamp clock_seq node : Z) : Z :=
  let time_high_and_time_mid := Z.land (Z.shiftr timestamp 12) 0xFFFFFFFFFFFF in
  let time_low_and_version := Z.land timestamp 0x0FFF in
  let uuid_int := Z.shiftl time_high_and_time_mid 80 in
  let uuid_int := Z.lor uuid_int (Z.shiftl time_low_and_version 64) in
  let uuid_int := Z.lor uuid_int (Z.shiftl (Z.land clock_seq 0x3FFF) 48) in
  let uuid_int := Z.lor uuid_int node in
  uuid_int.

(** Lines 110-112 of [uuid7]: the nanosecond count that the call issues. *)
Definition uuid7_timestamp (env : Env) (st : ClockState) : Z :=
  let nanoseconds := time_ns env in
  advance (_last_v7_timestamp st) nanoseconds.

(** Lines 116-124 of [uuid7]: the fields are put in place. *)
Definition uuid7_pack (timestamp_s subsec rand : Z) : Z :=
  let subsec_a := Z.shiftr subsec 18 in
  let subsec_b := Z.land (Z.shiftr subsec 6) 0x0FFF in
  let subsec_c := Z.land subsec 0x3F in
  let uuid_int := Z.shiftl (Z.land timestamp_s 0x0FFFFFFFFF) 92 in
  let uuid_int := Z.lor uuid_int (Z.shiftl subsec_a 80) in
  let uuid_int := Z.lor uuid_int (Z.shiftl subsec_b 64) in
  let uuid_int := Z.lor uuid_int (Z.shiftl subsec_c 56) in
  let uuid_int := Z.lor uuid_int rand in
  uuid_int.

(** Lines 114-124 of [uuid7]: the integer handed to the constructor. *)
Definition uuid7_int (nanoseconds rand : Z) : Z :=
  let '(timestamp_s, timestamp_ns) := divmod nanoseconds (10 ^ 9) in
  let subsec := _subsec_encode timestamp_ns in
  uuid7_pack timestamp_s subsec rand.

(** *** Sequences of calls in one process *)

Inductive kind : Type := V6 | V7.

Inductive call : Type :=
| CallV6 (env : Env) (clock_seq : option Z)
| CallV7 (env : Env).

Definition kind_of (c : call) : kind :=
  match c with
  | CallV6 _ _ => V6
  | CallV7 _ => V7
  end.

Definition kind_eqb (a b : kind) : bool :=
  match a, b with
  | V6, V6 | V7, V7 => true
  | _, _ => false
  end.

Definition watermark (k : kind) (st : ClockState) : option Z :=
  match k with
  | V6 => _last_v6_timestamp st
  | V7 => _last_v7_timestamp st
  end.

Definition step (st : ClockState) (c : call) : ClockState * result UUID :=
  match c with
  | CallV6 env clock_seq => uuid6 env clock_seq st
  | CallV7 env => uuid7 env st
  end.

(** The clock value that a call proposes before the watermark test:
    100-ns ticks since 1582-10-15 for [uuid6], nanoseconds for [uuid7]. *)
Definition candidate (c : call) : Z :=
  match c with
  | CallV6 env _ => time_ns env / 100 + 0x01B21DD213814000
  | CallV7 env => time_ns env
  end.

Definition version_of (c : call) : Z :=
  match c with
  | CallV6 _ _ => 6
  | CallV7 _ => 7
  end.

(** The integer that a call assembles around the timestamp [t]. *)
Definition assemble (c : call) (t : Z) : Z :=
  match c with
  | CallV6 env clock_seq =>
      uuid6_int t
        (match clock_seq with
         | None => _getrandbits env 14
         | Some c => c
         end)
        (_getrandbits env 48)
  | CallV7 env => uuid7_int t (_getrandbits env 56)
  end.

(** The random reads of a call whose width matters: the node of [uuid6]
    and the tail of [uuid7] (the random clock sequence is masked). *)
Definition random_source_ok (c : call) : Prop :=
  match c with
  | CallV6 env _ => randbits_ok env 48
  | CallV7 env => randbits_ok env 56
  end.

(** The timestamp issued by one call, from the state it starts in. *)
Definition issued_by (st : ClockState) (c : call) : Z :=
  match c with
  | CallV6 env _ => uuid6_timestamp env st
  | CallV7 env => uuid7_timestamp env st
  end.

(** The integer that one call hands to the constructor. *)
Definition assembled (st : ClockState) (c : call) : Z :=
  assemble c (issued_by st c).

(** The timestamps issued by the calls of kind [k], in call order. *)
Fixpoint issued (k : kind) (st : ClockState) (cs : list call) : list Z :=
  match cs with
  | [] => []
  | c :: cs' =>
      let st' := fst (step st c) in
      if kind_eqb (kind_of c) k
      then issued_by st c :: issued k st' cs'
      else issued k st' cs'
  end.

(** The UUIDs (or exceptions) returned by a sequence of calls. *)
Fixpoint run (st : ClockState) (cs : list call) : list (result UUID) :=
  match cs with
  | [] => []
  | c :: cs' => snd (step st c) :: run (fst (step st c)) cs'
  end.

(** *** Concrete inputs *)

(** The clock of [test_uuid7_hex_from_time], with a random source that
    returns zero, and the globals as that test patches them. *)
Definition vector_env : Env := mkEnv (0x17F21CFD130 * 10 ^ 6) (fun _ => 0).
Definition vector_state : ClockState := mkClockState None (Some 1).

(** The clock, random source and globals of [test_uuid6_hex_from_time]. *)
Definition vector6_env : Env :=
  mkEnv 0x16D6320C3D4DCC00 (fun _ => 0x9E6BDECED846).
Definition vector6_state : ClockState := mkClockState (Some 1) None.

(** Clocks at [2^36] seconds, at the epoch and at 0.999999999 s. *)
Definition late_env : Env := mkEnv (2 ^ 36 * 10 ^ 9) (fun _ => 0).
Definition epoch_env : Env := mkEnv 0 (fun _ => 0).
Definition fraction_env : Env := mkEnv 999999999 (fun _ => 0).

(** A clock before the epoch, a random source that returns all ones, and
    watermarks far from the clock. *)
Definition edge_env : Env := mkEnv (-5) (fun k => 2 ^ k - 1).
Definition edge_state : ClockState := mkClockState (Some (2 ^ 70)) (Some (-3)).

(** *** Runs of calls and their results *)

(** The results returned by the calls of kind [k], in call order. *)
Fixpoint returned (k : kind) (st : ClockState) (cs : list call)
  : list (result UUID) :=
  match cs with
  | [] => []
  | c :: cs' =>
      let st' := fst (step st c) in
      if kind_eqb (kind_of c) k
      then snd (step st c) :: returned k st' cs'
      else returned k st' cs'
  end.

(** The first timestamp that no longer fits the timestamp field: 60 bits
    of ticks for version 6, 36 bits of seconds for version 7. *)
Definition field_limit (k : kind) : Z :=
  match k with
  | V6 => 2 ^ 60
  | V7 => 2 ^ 36 * 10 ^ 9
  end.

(** A short run of calls: the version 7 vector clock twice, a version 6
    call in between, then a clock that has gone back to the epoch. *)
Definition sample_calls : list call :=
  [CallV7 vector_env; CallV6 vector6_env (Some 0xB3C8);
   CallV7 vector_env; CallV7 epoch_env].

(** A run in which the version 7 clock stays at the epoch, below the
    watermark of [vector_state]. *)
Definition stalled_calls : list call :=
  [CallV7 epoch_env; CallV6 vector6_env None; CallV7 epoch_env].

(** * Properties *)

(** ** Bit-level toolkit *)

Lemma testbit_above (c n i : Z) :
  0 <= c < 2 ^ n -> n <= i -> Z.testbit c i = false.
Proof.
  intros Hc Hi.
  destruct (Z.eq_dec c 0) as [->|Hne]; [apply Z.testbit_0_l|].
  assert (0 <= n) by (destruct n; try lia; simpl in Hc; lia).
  apply Z.bits_above_log2; [lia|].
  assert (Z.log2 c < n) by (apply Z.log2_lt_pow2; lia). lia.
Qed.

(** A number whose bits from position [n] on are all clear lies in
    [[0, 2^n)]. *)
Lemma bits_bound (x n : Z) :
  0 <= n -> (forall i, n <= i -> Z.testbit x i = false) -> 0 <= x < 2 ^ n.
Proof.
  intros Hn Hhi.
  assert (Hx : 0 <= x).
  { apply Z.bits_iff_nonneg_ex. exists n. intros m Hm. apply Hhi. lia. }
  split; [exact Hx|].
  replace x with (x mod 2 ^ n);
    [apply Z.mod_pos_bound; apply Z.pow_pos_nonneg; lia|].
  apply Z.bits_inj'. intros i Hi.
  rewrite Z.testbit_mod_pow2 by lia.
  destruct (Z.ltb_spec i n); simpl; [reflexivity|].
  symmetry. apply Hhi. lia.
Qed.

(** The masks of the source, as runs of ones at their bit offset. *)
Ltac mask_as_ones c n :=
  repeat match goal with
         | |- context [ Z.land ?x c ] =>
             change (Z.land x c) with (Z.land x (Z.ones n))
         end.

Ltac mask_consts :=
  change (Z.shiftl 0xC000 48) with (Z.shiftl (Z.ones 2) 62);
  change (Z.shiftl 0x8000 48) with (2 ^ 63);
  change (Z.shiftl 0x4000 48) with (2 ^ 62);
  change (Z.shiftl 0xF000 64) with (Z.shiftl (Z.ones 4) 76);
  mask_as_ones 0xFFFFFFFFFFFF 48;
  mask_as_ones 0x0FFFFFFFFF 36;
  mask_as_ones 0xffff 16;
  mask_as_ones 0x3FFF 14;
  mask_as_ones 0x0FFF 12;
  mask_as_ones 0xff 8;
  mask_as_ones 0x3F 6;
  mask_as_ones 0xf 4.

(** After [Z.bitblast_core]: decide the remaining index tests and clear
    the bits of bounded numbers that lie outside their width. *)
Ltac bits_finish :=
  repeat match goal with
         | |- context [ ?a =? ?b ] => destruct (Z.eqb_spec a b)
         | |- context [ ?a <=? ?b ] => destruct (Z.leb_spec a b)
         end;
  try (exfalso; lia);
  repeat match goal with
         | H : 0 <= ?c < 2 ^ ?n |- context [ Z.testbit ?c ?i ] =>
             first [ rewrite (Z.testbit_neg_r c i) by lia
                   | rewrite (testbit_above c n i H) by lia ]
         end;
  simpl; try btauto; try reflexivity.

Ltac bits := mask_consts; Z.bitblast_core; bits_finish.

(** Bit-by-bit evaluation when the position of the index is known: every
    side condition is linear arithmetic. *)
Ltac bit_rw :=
  repeat first
    [ rewrite Z.lor_spec
    | rewrite Z.land_spec
    | rewrite Z.testbit_0_l
    | match goal with
      | |- context [ Z.testbit (Z.lnot ?a) ?i ] =>
          rewrite (Z.lnot_spec a i) by lia
      | |- context [ Z.testbit (Z.shiftr ?a ?n) ?i ] =>
          rewrite (Z.shiftr_spec a n i) by lia
      | |- context [ Z.testbit (Z.shiftl ?a ?n) ?i ] =>
          rewrite (Z.shiftl_spec a n i) by lia
      | |- context [ Z.testbit (Z.ones ?n) ?i ] =>
          first [ rewrite (Z.ones_spec_low n i) by lia
                | rewrite (Z.ones_spec_high n i) by lia ]
      | |- context [ Z.testbit (2 ^ ?n) ?i ] =>
          rewrite (Z.pow2_bits_eqb n i) by lia
      | |- context [ Z.testbit ?a ?i ] =>
          rewrite (Z.testbit_neg_r a i) by lia
      | H : 0 <= ?c < 2 ^ ?n |- context [ Z.testbit ?c ?i ] =>
          rewrite (testbit_above c n i H) by lia
      | |- context [ ?a =? ?b ] =>
          first [ rewrite (proj2 (Z.eqb_neq a b)) by lia
                | rewrite (proj2 (Z.eqb_eq a b)) by lia ]
      end ].

Ltac same_index :=
  repeat match goal with
         | |- context [ Z.testbit ?x ?i ] =>
             lazymatch goal with
             | |- context [ Z.testbit x ?j ] =>
                 lazymatch j with
                 | i => fail
                 | _ => replace j with i by lia
                 end
             end
         end.

Ltac bit_eval := bit_rw; simpl; same_index; try btauto; try reflexivity.

Ltac cut_at i k := destruct (Z_lt_dec i k).

(** ** The generators and the constructor in terms of their parts *)

Lemma init_parts (v : Z) (version : option Z) :
  DraftUUID.__init__ v version =
    if negb ((0 <=? v) && (v <? Z.shiftl 1 128))
    then Raise (ValueError "int is out of range (need a 128-bit value)")
    else
      match version with
      | None => StdUUID.__init__ v
      | Some version =>
          if negb ((6 <=? version) && (version <=? 7))
          then Raise (ValueError "illegal version number")
          else StdUUID.__init__ (DraftUUID.stamp v version)
      end.
Proof. reflexivity. Qed.

Lemma uuid6_parts (env : Env) (clock_seq : option Z) (st : ClockState) :
  uuid6 env clock_seq st =
    (mkClockState (Some (uuid6_timestamp env st)) (_last_v7_timestamp st),
     DraftUUID.__init__
       (uuid6_int (uuid6_timestamp env st)
          (match clock_seq with
           | None => _getrandbits env 14
           | Some c => c
           end)
          (_getrandbits env 48))
       (Some 6)).
Proof. reflexivity. Qed.

Lemma uuid7_parts (env : Env) (st : ClockState) :
  uuid7 env st =
    (mkClockState (_last_v6_timestamp st) (Some (uuid7_timestamp env st)),
     DraftUUID.__init__
       (uuid7_int (uuid7_timestamp env st) (_getrandbits env 56)) (Some 7)).
Proof. reflexivity. Qed.

(** ** The constructor *)

Section Stamp.
Import DraftUUID.
Variables v ver : Z.
Hypothesis Hver : 0 <= ver < 2 ^ 4.

Lemma stamp_bit_frame (n : Z) :
  0 <= n -> n <> 62 -> n <> 63 -> ~ (76 <= n < 80) ->
  Z.testbit (stamp v ver) n = Z.testbit v n.
Proof. intros Hn H62 H63 H76. unfold stamp. bits. Qed.

Lemma stamp_bit_version (n : Z) :
  76 <= n < 80 -> Z.testbit (stamp v ver) n = Z.testbit ver (n - 76).
Proof. intros Hn. unfold stamp. bits. Qed.

Lemma stamp_bit_63 : Z.testbit (stamp v ver) 63 = true.
Proof. unfold stamp. bits. Qed.

Lemma stamp_bit_62 : Z.testbit (stamp v ver) 62 = false.
Proof. unfold stamp. bits. Qed.

Lemma stamp_range : 0 <= v < 2 ^ 128 -> 0 <= stamp v ver < 2 ^ 128.
Proof.
  intros Hv. apply bits_bound; [lia|]. intros i Hi.
  rewrite stamp_bit_frame by lia.
  apply (testbit_above v 128); lia.
Qed.

Lemma stamp_variant_field : Z.land (Z.shiftr (stamp v ver) 62) 3 = 2.
Proof.
  apply Z.bits_inj'. intros i Hi.
  change 3 with (Z.ones 2). rewrite Z.land_spec, Z.shiftr_spec by lia.
  destruct (Z.eq_dec i 0) as [->|H0];
    [change (0 + 62) with 62; rewrite stamp_bit_62; reflexivity|].
  destruct (Z.eq_dec i 1) as [->|H1];
    [change (1 + 62) with 63; rewrite stamp_bit_63; reflexivity|].
  rewrite Z.ones_spec_high by lia. rewrite andb_false_r.
  symmetry. apply (testbit_above 2 2); lia.
Qed.

Lemma stamp_version_field : Z.land (Z.shiftr (stamp v ver) 76) 0xf = ver.
Proof.
  apply Z.bits_inj'. intros i Hi.
  change 0xf with (Z.ones 4). rewrite Z.land_spec, Z.shiftr_spec by lia.
  destruct (Z.ltb_spec i 4).
  - rewrite stamp_bit_version by lia. rewrite Z.ones_spec_low by lia.
    rewrite andb_true_r. f_equal. lia.
  - rewrite Z.ones_spec_high by lia. rewrite andb_false_r.
    symmetry. apply (testbit_above ver 4); lia.
Qed.
End Stamp.

Lemma land_pow2 (x k : Z) :
  0 <= k -> Z.land x (2 ^ k) = if Z.testbit x k then 2 ^ k else 0.
Proof.
  intros Hk. apply Z.bits_inj'. intros i Hi.
  rewrite Z.land_spec, Z.pow2_bits_eqb by lia.
  destruct (Z.eqb_spec k i) as [->|Hne].
  - destruct (Z.testbit x i); simpl;
      [rewrite Z.pow2_bits_true by lia | rewrite Z.testbit_0_l]; reflexivity.
  - rewrite andb_false_r.
    destruct (Z.testbit x k);
      [rewrite Z.pow2_bits_false by lia | rewrite Z.testbit_0_l]; reflexivity.
Qed.

Lemma in_range_test (v : Z) :
  0 <= v < 2 ^ 128 -> negb ((0 <=? v) && (v <? Z.shiftl 1 128)) = false.
Proof.
  intros Hv. change (Z.shiftl 1 128) with (2 ^ 128).
  destruct (Z.leb_spec 0 v); destruct (Z.ltb_spec v (2 ^ 128)); simpl;
    try reflexivity; lia.
Qed.

Lemma out_of_range_test (v : Z) :
  v < 0 \/ 2 ^ 128 <= v -> negb ((0 <=? v) && (v <? Z.shiftl 1 128)) = true.
Proof.
  intros Hv. change (Z.shiftl 1 128) with (2 ^ 128).
  destruct (Z.leb_spec 0 v); destruct (Z.ltb_spec v (2 ^ 128)); simpl;
    try reflexivity; lia.
Qed.

Lemma std_init_ok (v : Z) :
  0 <= v < 2 ^ 128 -> StdUUID.__init__ v = Ok (mkUUID v).
Proof.
  intros Hv. unfold StdUUID.__init__. now rewrite in_range_test.
Qed.

Lemma init_plain (v : Z) :
  0 <= v < 2 ^ 128 -> DraftUUID.__init__ v None = Ok (mkUUID v).
Proof.
  intros Hv. rewrite init_parts.
  rewrite in_range_test by assumption. now apply std_init_ok.
Qed.

Lemma init_tagged (v ver : Z) :
  0 <= v < 2 ^ 128 -> 6 <= ver <= 7 ->
  DraftUUID.__init__ v (Some ver) = Ok (mkUUID (DraftUUID.stamp v ver)).
Proof.
  intros Hv Hver. rewrite init_parts.
  rewrite in_range_test by assumption.
  replace (negb ((6 <=? ver) && (ver <=? 7))) with false
    by (destruct (Z.leb_spec 6 ver); destruct (Z.leb_spec ver 7); simpl;
        try reflexivity; lia).
  apply std_init_ok. apply stamp_range; [simpl|]; lia.
Qed.

Lemma tagged_variant (v ver : Z) :
  0 <= ver < 2 ^ 4 ->
  StdUUID.variant (mkUUID (DraftUUID.stamp v ver)) = RFC_4122.
Proof.
  intros Hver. unfold StdUUID.variant. cbn [int].
  change (Z.shiftl 0x8000 48) with (2 ^ 63).
  change (Z.shiftl 0x4000 48) with (2 ^ 62).
  rewrite !land_pow2 by lia.
  rewrite stamp_bit_63, stamp_bit_62 by assumption. reflexivity.
Qed.

Lemma tagged_version (v ver : Z) :
  0 <= ver < 2 ^ 4 ->
  StdUUID.version (mkUUID (DraftUUID.stamp v ver)) = Some ver.
Proof.
  intros Hver. unfold StdUUID.version.
  rewrite tagged_variant by assumption. cbn [int].
  now rewrite stamp_version_field.
Qed.

(** C7. For every 128-bit [v] and every version in {6, 7} the constructor
    returns a UUID whose variant bits 63 and 62 are 1 and 0 (binary 10)
    and whose version nibble, bits 76-79, is the requested version; the
    standard accessors accordingly report RFC 4122 and that version. *)
Theorem construct_sets_variant_and_version (v ver : Z) :
  0 <= v < 2 ^ 128 -> ver = 6 \/ ver = 7 ->
  exists u,
    DraftUUID.__init__ v (Some ver) = Ok u /\
    Z.testbit (int u) 63 = true /\ Z.testbit (int u) 62 = false /\
    Z.land (Z.shiftr (int u) 62) 3 = 2 /\
    Z.land (Z.shiftr (int u) 76) 0xf = ver /\
    StdUUID.variant u = RFC_4122 /\
    StdUUID.version u = Some ver.
Proof.
  intros Hv Hver.
  assert (H4 : 0 <= ver < 2 ^ 4) by (simpl; lia).
  exists (mkUUID (DraftUUID.stamp v ver)). cbn [int].
  split; [apply init_tagged; lia|].
  split; [now apply stamp_bit_63|].
  split; [now apply stamp_bit_62|].
  split; [now apply stamp_variant_field|].
  split; [now apply stamp_version_field|].
  split; [now apply tagged_variant | now apply tagged_version].
Qed.

Lemma construct_sets_variant_and_version_witness :
  exists u,
    DraftUUID.__init__ (2 ^ 128 - 1) (Some 6) = Ok u /\
    Z.testbit (int u) 63 = true /\ Z.testbit (int u) 62 = false /\
    Z.land (Z.shiftr (int u) 62) 3 = 2 /\
    Z.land (Z.shiftr (int u) 76) 0xf = 6 /\
    StdUUID.variant u = RFC_4122 /\
    StdUUID.version u = Some 6.
Proof.
  apply (construct_sets_variant_and_version (2 ^ 128 - 1) 6).
  - simpl; lia.
  - left; reflexivity.
Defined.

(** C8. The constructor raises exactly when the value is outside
    [[0, 2^128)] or a version is given that is not 6 or 7, and what it
    raises is a [ValueError]; so [(-1, None)], [(2^128, None)] and
    [(0, 5)] fail, and every in-range value with no version or with
    version 6 or 7 is accepted. *)
Theorem construct_raises_iff (v : Z) (version : option Z) :
  (raises (DraftUUID.__init__ v version) = true <->
     (v < 0 \/ 2 ^ 128 <= v) \/
     (exists k, version = Some k /\ (k < 6 \/ 7 < k))) /\
  (raises (DraftUUID.__init__ v version) = true ->
     exists msg, DraftUUID.__init__ v version = Raise (ValueError msg)) /\
  raises (DraftUUID.__init__ (-1) None) = true /\
  raises (DraftUUID.__init__ (2 ^ 128) None) = true /\
  raises (DraftUUID.__init__ 0 (Some 5)) = true.
Proof.
  assert (Hcases :
    (exists msg, DraftUUID.__init__ v version = Raise (ValueError msg)) /\
      ((v < 0 \/ 2 ^ 128 <= v) \/
       (exists k, version = Some k /\ (k < 6 \/ 7 < k)))
    \/
    (exists u, DraftUUID.__init__ v version = Ok u) /\
      ~ ((v < 0 \/ 2 ^ 128 <= v) \/
         (exists k, version = Some k /\ (k < 6 \/ 7 < k)))).
  { destruct (Z_lt_dec v 0) as [Hneg|Hnn];
      [left; split; [|left; lia];
       rewrite init_parts; rewrite out_of_range_test by lia;
       eexists; reflexivity|].
    destruct (Z_le_dec (2 ^ 128) v) as [Hbig|Hsmall];
      [left; split; [|left; lia];
       rewrite init_parts; rewrite out_of_range_test by lia;
       eexists; reflexivity|].
    destruct version as [k|].
    - destruct (Z_le_dec 6 k) as [H6|H6]; [destruct (Z_le_dec k 7) as [H7|H7]|].
      + right. split; [eexists; apply init_tagged; lia|].
        intros [Hr|(k' & Hk' & Hr)]; [lia|]. inversion Hk'; subst. lia.
      + left. split; [|right; exists k; split; [reflexivity|lia]].
        rewrite init_parts. rewrite in_range_test by lia.
        replace (negb ((6 <=? k) && (k <=? 7))) with true
          by (destruct (Z.leb_spec 6 k); destruct (Z.leb_spec k 7); simpl;
              try reflexivity; lia).
        eexists; reflexivity.
      + left. split; [|right; exists k; split; [reflexivity|lia]].
        rewrite init_parts. rewrite in_range_test by lia.
        replace (negb ((6 <=? k) && (k <=? 7))) with true
          by (destruct (Z.leb_spec 6 k); destruct (Z.leb_spec k 7); simpl;
              try reflexivity; lia).
        eexists; reflexivity.
    - right. split; [eexists; apply init_plain; lia|].
      intros [Hr|(k' & Hk' & Hr)]; [lia|discriminate]. }
  split; [|split; [|repeat split; reflexivity]].
  - destruct Hcases as [[[msg ->] Hc]|[[u ->] Hc]]; simpl; split; intro H;
      try reflexivity; try assumption; try discriminate; contradiction.
  - destruct Hcases as [[[msg Hm] Hc]|[[u Hu] Hc]]; intro H.
    + exists msg; exact Hm.
    + rewrite Hu in H; discriminate.
Qed.

Lemma tag_position_false (n : Z) :
  tag_position n = false -> n <> 62 /\ n <> 63 /\ ~ (76 <= n < 80).
Proof.
  unfold tag_position. intros H.
  destruct (Z.eqb_spec n 62); [discriminate|].
  destruct (Z.eqb_spec n 63); [discriminate|].
  destruct (Z.leb_spec 76 n); destruct (Z.ltb_spec n 80);
    try discriminate; lia.
Qed.

(** C10. For an in-range [v] and a version in {6, 7} the constructed
    integer has bit 63 set, bit 62 clear and the version in bits 76-79,
    and agrees with [v] at every other position: nothing is shifted.
    The six bits of [v] at the tag positions are lost, since two values
    that differ only there construct the same UUID. *)
Theorem construct_overwrites_in_place (v ver : Z) :
  0 <= v < 2 ^ 128 -> ver = 6 \/ ver = 7 ->
  exists u,
    DraftUUID.__init__ v (Some ver) = Ok u /\
    (forall n, 0 <= n -> tag_position n = false ->
               Z.testbit (int u) n = Z.testbit v n) /\
    Z.testbit (int u) 63 = true /\ Z.testbit (int u) 62 = false /\
    (forall n, 76 <= n < 80 ->
               Z.testbit (int u) n = Z.testbit ver (n - 76)) /\
    (forall v', 0 <= v' < 2 ^ 128 ->
                (forall n, 0 <= n -> tag_position n = false ->
                           Z.testbit v' n = Z.testbit v n) ->
                DraftUUID.__init__ v' (Some ver) = Ok u).
Proof.
  intros Hv Hver.
  assert (H4 : 0 <= ver < 2 ^ 4) by (simpl; lia).
  exists (mkUUID (DraftUUID.stamp v ver)). cbn [int].
  split; [apply init_tagged; lia|].
  split.
  { intros n Hn Hp. apply tag_position_false in Hp.
    apply stamp_bit_frame; tauto. }
  split; [now apply stamp_bit_63|].
  split; [now apply stamp_bit_62|].
  split; [intros n Hn; now apply stamp_bit_version|].
  intros v' Hv' Hsame. rewrite init_tagged by lia. do 2 f_equal.
  apply Z.bits_inj'. intros n Hn.
  destruct (tag_position n) eqn:Hp.
  - unfold tag_position in Hp.
    destruct (Z.eqb_spec n 62) as [->|];
      [now rewrite !stamp_bit_62|].
    destruct (Z.eqb_spec n 63) as [->|];
      [now rewrite !stamp_bit_63|].
    destruct (Z.leb_spec 76 n); destruct (Z.ltb_spec n 80);
      try discriminate.
    now rewrite !stamp_bit_version by lia.
  - pose proof (tag_position_false n Hp) as (H62 & H63 & H76).
    rewrite !stamp_bit_frame by assumption. now apply Hsame.
Qed.

Lemma construct_overwrites_in_place_witness :
  exists u,
    DraftUUID.__init__ (2 ^ 128 - 1) (Some 7) = Ok u /\
    (forall n, 0 <= n -> tag_position n = false ->
               Z.testbit (int u) n = Z.testbit (2 ^ 128 - 1) n) /\
    Z.testbit (int u) 63 = true /\ Z.testbit (int u) 62 = false /\
    (forall n, 76 <= n < 80 ->
               Z.testbit (int u) n = Z.testbit 7 (n - 76)) /\
    (forall v', 0 <= v' < 2 ^ 128 ->
                (forall n, 0 <= n -> tag_position n = false ->
                           Z.testbit v' n = Z.testbit (2 ^ 128 - 1) n) ->
                DraftUUID.__init__ v' (Some 7) = Ok u).
Proof.
  apply (construct_overwrites_in_place (2 ^ 128 - 1) 7).
  - simpl; lia.
  - right; reflexivity.
Defined.


(** ** Version 6 *)

Section V6Fields.
Import DraftUUID.
Variables timestamp clock_seq node ver : Z.
Hypothesis Hver : 0 <= ver < 2 ^ 4.
Hypothesis Hnode : 0 <= node < 2 ^ 48.

Lemma uuid6_int_range : 0 <= uuid6_int timestamp clock_seq node < 2 ^ 128.
Proof.
  apply bits_bound; [lia|]. intros i Hi. unfold uuid6_int.
  mask_consts. bit_eval.
Qed.

Lemma v6_time_fields :
  0 <= timestamp < 2 ^ 60 ->
  let u := mkUUID (stamp (uuid6_int timestamp clock_seq node) ver) in
  Z.lor (Z.lor (Z.shiftl (time_low u) 28) (Z.shiftl (time_mid u) 12))
        (Z.land (time_hi_version u) 0x0FFF) = timestamp.
Proof.
  intros Ht u. subst u.
  unfold time_low, time_mid, time_hi_version, stamp, uuid6_int. cbn [int].
  apply Z.bits_inj'. intros i Hi. mask_consts.
  cut_at i 12; [|cut_at i 28; [|cut_at i 60]]; bit_eval.
Qed.
End V6Fields.

Lemma tagged_version_is (v ver : Z) :
  0 <= ver < 2 ^ 4 ->
  version_is (mkUUID (DraftUUID.stamp v ver)) ver = true.
Proof.
  intros Hver. unfold version_is. rewrite tagged_version by assumption.
  apply Z.eqb_refl.
Qed.

Lemma v6_constructed (t clock_seq node : Z) :
  0 <= node < 2 ^ 48 ->
  DraftUUID.__init__ (uuid6_int t clock_seq node) (Some 6)
  = Ok (mkUUID (DraftUUID.stamp (uuid6_int t clock_seq node) 6)).
Proof.
  intros Hnode. apply init_tagged; [now apply uuid6_int_range | lia].
Qed.

Lemma v6_constructed_time (t clock_seq node : Z) :
  0 <= t < 2 ^ 60 -> 0 <= node < 2 ^ 48 ->
  DraftUUID.time (mkUUID (DraftUUID.stamp (uuid6_int t clock_seq node) 6))
  = Ok t.
Proof.
  intros Ht Hnode.
  assert (H6 : 0 <= 6 < 2 ^ 4) by (simpl; lia).
  unfold DraftUUID.time. rewrite tagged_version_is by assumption.
  f_equal. now apply v6_time_fields.
Qed.



(** The version 6 vector of [test_uuid6_hex_from_time]. *)
Example uuid6_vector :
  exists u,
    snd (uuid6 vector6_env (Some 0xB3C8) vector6_state) = Ok u /\
    __str__ u = "1ec9414c-232a-6b00-b3c8-9e6bdeced846"%string /\
    DraftUUID.time u = Ok 138648505420000000.
Proof. eexists. split; [vm_compute; reflexivity|]. split; reflexivity. Qed.

(** The generator itself: whenever the issued timestamp fits in 60 bits,
    the UUID that [uuid6] returns reads back as that timestamp. *)
Lemma uuid6_reads_back (env : Env) (clock_seq : option Z) (st : ClockState) :
  randbits_ok env 48 -> 0 <= uuid6_timestamp env st < 2 ^ 60 ->
  exists u,
    snd (uuid6 env clock_seq st) = Ok u /\
    DraftUUID.time u = Ok (uuid6_timestamp env st).
Proof.
  intros Hr Ht. rewrite uuid6_parts. cbn [snd]. eexists.
  split; [now apply v6_constructed | now apply v6_constructed_time].
Qed.

(** ** Version 7 *)

Lemma subsec_encode_range (n : Z) :
  0 <= n < 10 ^ 9 -> 0 <= _subsec_encode n < 2 ^ 30.
Proof.
  intros Hn. unfold _subsec_encode. split.
  - apply Z.div_pos; lia.
  - apply Z.div_lt_upper_bound; lia.
Qed.

Section V7Fields.
Import DraftUUID.
Variables timestamp_s subsec rand ver : Z.
Hypothesis Hver : 0 <= ver < 2 ^ 4.
Hypothesis Hsub : 0 <= subsec < 2 ^ 30.
Hypothesis Hrand : 0 <= rand < 2 ^ 56.

Local Notation "'packed'" :=
  (stamp (uuid7_pack timestamp_s subsec rand) ver) (only parsing).

Lemma uuid7_pack_range :
  0 <= uuid7_pack timestamp_s subsec rand < 2 ^ 128.
Proof.
  apply bits_bound; [lia|]. intros i Hi. unfold uuid7_pack.
  mask_consts. bit_eval.
Qed.

Ltac field_bits i :=
  unfold bit_field, stamp, uuid7_pack;
  apply Z.bits_inj'; intros i ?; mask_consts.

Lemma v7_field_seconds : bit_field packed 92 36 = timestamp_s mod 2 ^ 36.
Proof.
  rewrite <- Z.land_ones by lia.
  field_bits i. cut_at i 36; bit_eval.
Qed.

Lemma v7_field_subsec_a : bit_field packed 80 12 = Z.shiftr subsec 18.
Proof. field_bits i. cut_at i 12; bit_eval. Qed.

Lemma v7_field_version : bit_field packed 76 4 = ver.
Proof. field_bits i. cut_at i 4; bit_eval. Qed.

Lemma v7_field_subsec_b :
  bit_field packed 64 12 = Z.land (Z.shiftr subsec 6) 0x0FFF.
Proof. field_bits i. cut_at i 12; bit_eval. Qed.

Lemma v7_field_variant : bit_field packed 62 2 = 2.
Proof.
  change 2 with (2 ^ 1) at 2.
  field_bits i. cut_at i 1; [|cut_at i 2]; bit_eval.
Qed.

Lemma v7_field_subsec_c : bit_field packed 56 6 = Z.land subsec 0x3F.
Proof. field_bits i. cut_at i 6; bit_eval. Qed.

Lemma v7_field_rand : bit_field packed 0 56 = rand.
Proof. field_bits i. cut_at i 56; bit_eval. Qed.
End V7Fields.

Lemma uuid7_int_range (nanoseconds rand : Z) :
  0 <= rand < 2 ^ 56 -> 0 <= uuid7_int nanoseconds rand < 2 ^ 128.
Proof.
  intros Hrand. unfold uuid7_int, divmod.
  apply uuid7_pack_range; [|assumption].
  apply subsec_encode_range. apply Z.mod_pos_bound. lia.
Qed.

Lemma uuid7_returns (env : Env) (st : ClockState) :
  randbits_ok env 56 ->
  snd (uuid7 env st) =
    Ok (mkUUID (DraftUUID.stamp
                  (uuid7_pack (uuid7_timestamp env st / 10 ^ 9)
                     (_subsec_encode (uuid7_timestamp env st mod 10 ^ 9))
                     (randbits env 56)) 7)).
Proof.
  intros Hr. rewrite uuid7_parts. cbn [snd].
  rewrite init_tagged; [reflexivity| |lia].
  now apply uuid7_int_range.
Qed.

(** C2, as the code has it. Every [uuid7] call returns a UUID laid out as
    [timestamp_s:36][subsec_a:12][version:4][subsec_b:12][variant:2]
    [subsec_c:6][random:56]: the whole-second count is reduced to 36 bits
    and sits in bits 92-127, the 30-bit fraction is cut into 12, 12 and 6
    bits around the version nibble 7 and the variant bits 10, and the
    random tail fills bits 0-55; the payload is 122 bits. *)
Theorem uuid7_layout (env : Env) (st : ClockState) :
  randbits_ok env 56 ->
  let nanoseconds := uuid7_timestamp env st in
  let timestamp_s := nanoseconds / 10 ^ 9 in
  let subsec := _subsec_encode (nanoseconds mod 10 ^ 9) in
  exists u,
    snd (uuid7 env st) = Ok u /\
    0 <= int u < 2 ^ 128 /\
    0 <= subsec < 2 ^ 30 /\
    bit_field (int u) 92 36 = timestamp_s mod 2 ^ 36 /\
    bit_field (int u) 80 12 = Z.shiftr subsec 18 /\
    bit_field (int u) 76 4 = 7 /\
    bit_field (int u) 64 12 = Z.land (Z.shiftr subsec 6) 0x0FFF /\
    bit_field (int u) 62 2 = 2 /\
    bit_field (int u) 56 6 = Z.land subsec 0x3F /\
    bit_field (int u) 0 56 = randbits env 56.
Proof.
  intros Hr nanoseconds timestamp_s subsec.
  assert (H7 : 0 <= 7 < 2 ^ 4) by (simpl; lia).
  assert (Hsub : 0 <= subsec < 2 ^ 30)
    by (apply subsec_encode_range; apply Z.mod_pos_bound; lia).
  eexists. split; [now apply uuid7_returns|]. cbn [int].
  fold nanoseconds. fold timestamp_s. fold subsec.
  split; [apply stamp_range; [assumption|];
          now apply uuid7_pack_range|].
  split; [assumption|].
  split; [now apply v7_field_seconds|].
  split; [now apply v7_field_subsec_a|].
  split; [now apply v7_field_version|].
  split; [now apply v7_field_subsec_b|].
  split; [now apply v7_field_variant|].
  split; [now apply v7_field_subsec_c | now apply v7_field_rand].
Qed.

Lemma uuid7_layout_witness :
  randbits_ok vector_env 56 /\
  exists u,
    snd (uuid7 vector_env process_start) = Ok u /\
    0 <= int u < 2 ^ 128 /\
    0 <= 0 < 2 ^ 30 /\
    bit_field (int u) 92 36 = 1645539742 /\
    bit_field (int u) 80 12 = 0 /\
    bit_field (int u) 76 4 = 7 /\
    bit_field (int u) 64 12 = 0 /\
    bit_field (int u) 62 2 = 2 /\
    bit_field (int u) 56 6 = 0 /\
    bit_field (int u) 0 56 = 0.
Proof.
  assert (Hr : randbits_ok vector_env 56) by (unfold randbits_ok; simpl; lia).
  split; [exact Hr|].
  exact (uuid7_layout vector_env process_start Hr).
Defined.

(** C2, as stated, fails. With the clock at [2^36] seconds the
    whole-second count fits in 40 bits, yet the top 40 bits of the UUID
    are zero and the UUID is the one issued at second 0; and at
    0.999999999 s the top 40 bits are not the second count 0 but carry
    the high bits of the fraction. *)
Lemma uuid7_seconds_field_is_not_40_bits :
  fst (divmod (uuid7_timestamp late_env process_start) (10 ^ 9)) = 2 ^ 36 /\
  2 ^ 36 < 2 ^ 40 /\
  snd (uuid7 late_env process_start) = snd (uuid7 epoch_env process_start) /\
  (forall u, snd (uuid7 late_env process_start) = Ok u ->
             bit_field (int u) 88 40 = 0) /\
  fst (divmod (uuid7_timestamp fraction_env process_start) (10 ^ 9)) = 0 /\
  (forall u, snd (uuid7 fraction_env process_start) = Ok u ->
             bit_field (int u) 88 40 = 0xF).
Proof.
  split; [reflexivity|]. split; [reflexivity|].
  split; [reflexivity|].
  split; [intros u Hu; vm_compute in Hu; inversion Hu; reflexivity|].
  split; [reflexivity|].
  intros u Hu; vm_compute in Hu; inversion Hu; reflexivity.
Qed.

(** ** The generators never raise *)

Lemma uuid6_returns (env : Env) (clock_seq : option Z) (st : ClockState) :
  randbits_ok env 48 ->
  exists u, snd (uuid6 env clock_seq st) = Ok u.
Proof.
  intros Hr. rewrite uuid6_parts. cbn [snd]. eexists.
  apply init_tagged; [|lia]. now apply uuid6_int_range.
Qed.

(** C9. Whatever the [clock_seq] argument (any integer or none), the
    clock reading and the watermarks, and whatever the random source
    returns within its contract ([randbits(k)] has [k] bits), the integer
    that a [uuid6] or [uuid7] call hands to the constructor lies in
    [[0, 2^128)] and the call returns a UUID. *)
Theorem generators_never_raise (st : ClockState) (c : call) :
  random_source_ok c ->
  snd (step st c) = DraftUUID.__init__ (assembled st c) (Some (version_of c)) /\
  0 <= assembled st c < 2 ^ 128 /\
  exists u, snd (step st c) = Ok u.
Proof.
  intros Hr. split; [destruct c; reflexivity|].
  destruct c as [env clock_seq|env]; cbn [random_source_ok] in Hr.
  - split; [now apply uuid6_int_range | now apply uuid6_returns].
  - split; [now apply uuid7_int_range|].
    eexists. now apply uuid7_returns.
Qed.

Lemma generators_never_raise_witness :
  (random_source_ok (CallV6 edge_env (Some (-1))) /\
   exists u, snd (step edge_state (CallV6 edge_env (Some (-1)))) = Ok u) /\
  (random_source_ok (CallV7 edge_env) /\
   exists u, snd (step edge_state (CallV7 edge_env)) = Ok u).
Proof.
  assert (H6 : random_source_ok (CallV6 edge_env (Some (-1))))
    by (unfold random_source_ok, randbits_ok; simpl; lia).
  assert (H7 : random_source_ok (CallV7 edge_env))
    by (unfold random_source_ok, randbits_ok; simpl; lia).
  split.
  - split; [exact H6|].
    exact (proj2 (proj2 (generators_never_raise edge_state _ H6))).
  - split; [exact H7|].
    exact (proj2 (proj2 (generators_never_raise edge_state _ H7))).
Defined.

(** Hence no call of a sequence of calls raises, from any state. *)
Lemma run_never_raises (st : ClockState) (calls : list call) :
  Forall random_source_ok calls ->
  Forall (fun r => raises r = false) (run st calls).
Proof.
  revert st. induction calls as [|c calls IH]; intros st Hok; cbn [run].
  - constructor.
  - inversion Hok as [|c' calls' Hc Hrest]; subst. constructor.
    + destruct c as [env cs|env]; cbn [step].
      * destruct (uuid6_returns env cs st Hc) as [u ->]. reflexivity.
      * rewrite uuid7_returns by assumption. reflexivity.
    + apply IH. assumption.
Qed.

(** ** Monotonic timestamps *)

Lemma advance_above (w candidate : Z) : w < advance (Some w) candidate.
Proof.
  unfold advance. destruct (Z.leb_spec candidate w); lia.
Qed.

Lemma step_watermark_same (k : kind) (st : ClockState) (c : call) :
  kind_of c = k -> watermark k (fst (step st c)) = Some (issued_by st c).
Proof.
  intros <-. destruct c; reflexivity.
Qed.

Lemma step_watermark_other (k : kind) (st : ClockState) (c : call) :
  kind_of c <> k -> watermark k (fst (step st c)) = watermark k st.
Proof.
  intros Hk. destruct c, k; try reflexivity; now elim Hk.
Qed.

Lemma issued_by_advance (st : ClockState) (c : call) :
  issued_by st c = advance (watermark (kind_of c) st) (candidate c).
Proof. destruct c; reflexivity. Qed.

Lemma kind_eqb_spec (a b : kind) : reflect (a = b) (kind_eqb a b).
Proof. destruct a, b; constructor; congruence. Qed.

Lemma issued_sorted_above (k : kind) (calls : list call) :
  forall st,
    StronglySorted Z.lt (issued k st calls) /\
    (forall w, watermark k st = Some w -> Forall (Z.lt w) (issued k st calls)).
Proof.
  induction calls as [|c calls IH]; intros st; cbn [issued].
  - split; [constructor|]. intros w _. constructor.
  - destruct (IH (fst (step st c))) as [Hsorted Habove].
    destruct (kind_eqb_spec (kind_of c) k) as [Hk|Hk].
    + pose proof (step_watermark_same k st c Hk) as Hw'.
      specialize (Habove _ Hw').
      split; [now constructor|].
      intros w Hw.
      assert (Hlt : w < issued_by st c).
      { rewrite issued_by_advance, Hk, Hw. apply advance_above. }
      constructor; [exact Hlt|].
      eapply Forall_impl; [|exact Habove]. simpl. intros t Ht. lia.
    + rewrite (step_watermark_other k st c Hk) in Habove.
      split; assumption.
Qed.

(** C1. For each kind of generator, over any sequence of [uuid6] and
    [uuid7] calls from any state and whatever the clock reads, the
    timestamps issued by the calls of that kind are strictly increasing
    and all above the watermark the sequence started with.  Each call
    issues its candidate when the watermark is unset or below the
    candidate, and the watermark plus one otherwise; the issued value is
    the new watermark of its kind, leaves the other kind's watermark
    alone, and is the timestamp that the UUID is assembled from. *)
Theorem issued_timestamps_strictly_increase
  (k : kind) (st : ClockState) (calls : list call) :
  StronglySorted Z.lt (issued k st calls) /\
  (forall w, watermark k st = Some w -> Forall (Z.lt w) (issued k st calls)) /\
  (forall c,
      issued_by st c =
        match watermark (kind_of c) st with
        | None => candidate c
        | Some w => if candidate c <=? w then w + 1 else candidate c
        end /\
      watermark (kind_of c) (fst (step st c)) = Some (issued_by st c) /\
      (kind_of c <> k -> watermark k (fst (step st c)) = watermark k st) /\
      snd (step st c) =
        DraftUUID.__init__ (assemble c (issued_by st c)) (Some (version_of c))).
Proof.
  split; [apply issued_sorted_above|].
  split; [apply issued_sorted_above|].
  intros c.
  split; [rewrite issued_by_advance; reflexivity|].
  split; [now apply step_watermark_same|].
  split; [apply step_watermark_other|].
  destruct c; reflexivity.
Qed.

(** ** The version 7 test vector *)

Lemma hex_fixed_app (a b : nat) (n : Z) :
  hex_fixed (a + b) n
  = (hex_fixed a (Z.shiftr n (4 * Z.of_nat b)) ++ hex_fixed b n)%string.
Proof.
  induction a as [|a IH]; [reflexivity|].
  cbn [Nat.add hex_fixed append]. rewrite IH. f_equal. f_equal. f_equal.
  rewrite Z.shiftr_shiftr by lia. f_equal. lia.
Qed.

Lemma v7_top_52_bits (timestamp_s subsec rand ver : Z) :
  0 <= ver < 2 ^ 4 -> 0 <= subsec < 2 ^ 30 -> 0 <= rand < 2 ^ 56 ->
  Z.shiftr (DraftUUID.stamp (uuid7_pack timestamp_s subsec rand) ver) 76
  = Z.lor (Z.shiftl (Z.lor (Z.shiftl (Z.land timestamp_s 0x0FFFFFFFFF) 12)
                           (Z.shiftr subsec 18)) 4) ver.
Proof.
  intros Hver Hsub Hrand. unfold DraftUUID.stamp, uuid7_pack.
  apply Z.bits_inj'. intros i Hi. mask_consts.
  cut_at i 4; [|cut_at i 16; [|cut_at i 52]]; bit_eval.
Qed.


Lemma substring_0_0 (s : string) : substring 0 0 s = EmptyString.
Proof. destruct s; reflexivity. Qed.

Lemma str_prefix_of_top (u : UUID) :
  slice (__str__ u) 0 15
  = (let h := hex_fixed 13 (Z.shiftr (int u) 76) in
     slice h 0 8 ++ "-" ++ slice h 8 12 ++ "-" ++ slice h 12 13)%string.
Proof.
  unfold __str__. change 32%nat with (13 + 19)%nat.
  rewrite hex_fixed_app. change (4 * Z.of_nat 19) with 76.
  generalize (hex_fixed 19 (int u)) as rest.
  generalize (Z.shiftr (int u) 76) as top. intros top rest.
  cbn [hex_fixed].
  repeat match goal with
         | |- context [ hex_digit ?x ] => generalize (hex_digit x); intro
         end.
  cbn [slice substring append Nat.sub].
  now rewrite substring_0_0.
Qed.

(** C3, evaluated. With the clock at [0x17F21CFD130 * 10^6] ns and the
    version 7 watermark unset or below it, whatever the 56 random bits,
    the string of the UUID that [uuid7] returns starts with
    [06214f19-e000-7]: the 36-bit second count 0x06214f19e and a zero
    fraction.  The vector of [test_uuid7_hex_from_time], [017f21cf-d130-7]
    (a 48-bit millisecond count), is not what the code produces. *)
Theorem uuid7_vector_prefix (env : Env) (st : ClockState) :
  time_ns env = 0x17F21CFD130 * 10 ^ 6 ->
  randbits_ok env 56 ->
  match _last_v7_timestamp st with
  | None => True
  | Some w => w < 0x17F21CFD130 * 10 ^ 6
  end ->
  exists u,
    snd (uuid7 env st) = Ok u /\
    slice (__str__ u) 0 15 = "06214f19-e000-7"%string /\
    slice (__str__ u) 0 15 <> "017f21cf-d130-7"%string.
Proof.
  intros Htime Hr Hw.
  assert (Hts : uuid7_timestamp env st = 0x17F21CFD130 * 10 ^ 6).
  { unfold uuid7_timestamp, advance. rewrite Htime.
    destruct (_last_v7_timestamp st) as [w|]; [|reflexivity].
    destruct (Z.leb_spec (0x17F21CFD130 * 10 ^ 6) w); [lia|reflexivity]. }
  eexists. split; [now apply uuid7_returns|].
  rewrite Hts.
  assert (Hpre : forall s, s = "06214f19-e000-7"%string ->
                           s = "06214f19-e000-7"%string /\
                           s <> "017f21cf-d130-7"%string).
  { intros s ->. split; [reflexivity|discriminate]. }
  apply Hpre.
  rewrite str_prefix_of_top. cbn [int].
  rewrite v7_top_52_bits;
    [| simpl; lia | vm_compute; split; congruence | exact Hr].
  vm_compute. reflexivity.
Qed.

Lemma uuid7_vector_prefix_witness :
  exists u,
    snd (uuid7 vector_env vector_state) = Ok u /\
    slice (__str__ u) 0 15 = "06214f19-e000-7"%string /\
    slice (__str__ u) 0 15 <> "017f21cf-d130-7"%string.
Proof.
  apply (uuid7_vector_prefix vector_env vector_state).
  - reflexivity.
  - unfold randbits_ok; simpl; lia.
  - simpl; lia.
Defined.

(** ** Sub-second fractions: the float division is exact *)

Lemma digits2_pos_bounds (p : positive) :
  2 ^ (Zpos (digits2_pos p) - 1) <= Zpos p < 2 ^ Zpos (digits2_pos p).
Proof.
  induction p as [p IH|p IH|]; cbn [digits2_pos].
  - rewrite Pos2Z.inj_succ.
    replace (Z.succ (Zpos (digits2_pos p)) - 1)
      with (Z.succ (Zpos (digits2_pos p) - 1)) by lia.
    rewrite !Z.pow_succ_r by lia. lia.
  - rewrite Pos2Z.inj_succ.
    replace (Z.succ (Zpos (digits2_pos p)) - 1)
      with (Z.succ (Zpos (digits2_pos p) - 1)) by lia.
    rewrite !Z.pow_succ_r by lia. lia.
  - simpl. lia.
Qed.

Lemma pow2_window_unique (n d d' : Z) :
  2 ^ (d - 1) <= n < 2 ^ d -> 2 ^ (d' - 1) <= n < 2 ^ d' ->
  0 < d -> 0 < d' -> d = d'.
Proof.
  intros H H' Hd Hd'.
  destruct (Z.lt_trichotomy d d') as [Hlt|[Heq|Hgt]]; [|exact Heq|].
  - assert (2 ^ d <= 2 ^ (d' - 1)) by (apply Z.pow_le_mono_r; lia). lia.
  - assert (2 ^ d' <= 2 ^ (d - 1)) by (apply Z.pow_le_mono_r; lia). lia.
Qed.

Lemma Zdigits2_unique (p : positive) (d : Z) :
  0 < d -> 2 ^ (d - 1) <= Zpos p < 2 ^ d -> Zdigits2 (Zpos p) = d.
Proof.
  intros Hd H. cbn [Zdigits2].
  apply (pow2_window_unique (Zpos p)); try lia.
  apply digits2_pos_bounds.
Qed.

Lemma div_eucl_div_mod (a b : Z) : Z.div_eucl a b = (a / b, a mod b).
Proof.
  unfold Z.div, Z.modulo. destruct (Z.div_eucl a b). reflexivity.
Qed.

Lemma truediv_2p30_exact (pa pm : positive) (d : Z) :
  Zdigits2 (Zpos pa) = d -> d <= 83 ->
  Zpos pa * 2 ^ (84 - d) = 2 * Zpos pm * 2 ^ 30 ->
  SFdiv prec emax (S754_finite false pa 0) (S754_finite false (2 ^ 30) 0)
  = S754_finite false pm (d - 83).
Proof.
  intros Hd Hd83 Hexact.
  pose proof (digits2_pos_bounds pa) as Hpa.
  cbn [Zdigits2] in Hd. rewrite Hd in Hpa.
  assert (Hd1 : 1 <= d) by lia.
  assert (Hwin : 2 ^ 83 <= Zpos pa * 2 ^ (84 - d) < 2 ^ 84).
  { replace (2 ^ 83) with (2 ^ (d - 1) * 2 ^ (84 - d))
      by (rewrite <- Z.pow_add_r by lia; f_equal; lia).
    replace (2 ^ 84) with (2 ^ d * 2 ^ (84 - d))
      by (rewrite <- Z.pow_add_r by lia; f_equal; lia).
    assert (0 < 2 ^ (84 - d)) by (apply Z.pow_pos_nonneg; lia).
    nia. }
  assert (Hpm : Zdigits2 (Zpos pm) = 53).
  { apply Zdigits2_unique; [lia|]. rewrite Hexact in Hwin.
    change (2 ^ 83) with (2 * 2 ^ (53 - 1) * 2 ^ 30) in Hwin.
    change (2 ^ 84) with (2 * 2 ^ 53 * 2 ^ 30) in Hwin.
    change (2 ^ 30) with 1073741824 in Hwin. lia. }
  assert (H2pm : Zdigits2 (Zpos pm~0) = 54).
  { apply Zdigits2_unique; [lia|]. rewrite Hexact in Hwin.
    change (2 ^ 83) with (2 ^ (54 - 1) * 2 ^ 30) in Hwin.
    change (2 ^ 84) with (2 ^ 54 * 2 ^ 30) in Hwin.
    change (2 ^ 30) with 1073741824 in Hwin. lia. }
  assert (Hcore :
    SFdiv_core_binary prec emax (Zpos pa) 0 (Zpos (2 ^ 30)) 0
    = (Zpos pm~0, d - 84, loc_Exact)).
  { unfold SFdiv_core_binary. cbn [Zdigits2]. rewrite Hd.
    change (Zpos (digits2_pos (2 ^ 30))) with 31.
    replace (Z.min (fexp prec emax (d + 0 - (31 + 0))) (0 - 0)) with (d - 84)
      by (unfold fexp, SpecFloat.emin, prec, emax; lia).
    replace (0 - 0 - (d - 84)) with (84 - d) by lia.
    assert (Hm' : match 84 - d with
                  | 0 => Zpos pa
                  | Zpos _ => Z.shiftl (Zpos pa) (84 - d)
                  | Zneg _ => 0
                  end = Zpos pm~0 * 2 ^ 30).
    { destruct (84 - d) eqn:Hs; try lia.
      rewrite Z.shiftl_mul_pow2 by lia. rewrite Hexact. reflexivity. }
    rewrite Hm'. rewrite div_eucl_div_mod.
    rewrite Z.div_mul, Z.mod_mul by discriminate. reflexivity. }
  unfold SFdiv. rewrite Hcore. cbn [xorb].
  unfold binary_round_aux, shr_fexp. rewrite H2pm.
  replace (fexp prec emax (54 + (d - 84)) - (d - 84)) with 1
    by (unfold fexp, SpecFloat.emin, prec, emax; lia).
  cbn [shr_record_of_loc shr iter_pos shr_1 shr_m loc_of_shr_record
       round_nearest_even orb].
  rewrite Hpm.
  replace (fexp prec emax (53 + (d - 84 + 1)) - (d - 84 + 1)) with 0
    by (unfold fexp, SpecFloat.emin, prec, emax; lia).
  cbn [shr_record_of_loc shr shr_m].
  replace (d - 84 + 1 <=? emax - prec) with true
    by (symmetry; apply Z.leb_le; unfold prec, emax; lia).
  f_equal. lia.
Qed.

Lemma pow2_lt_inv (a b : Z) : 0 <= b -> 2 ^ a < 2 ^ b -> a < b.
Proof.
  intros Hb H. destruct (Z_lt_dec a b) as [|Hge]; [assumption|].
  assert (2 ^ b <= 2 ^ a) by (apply Z.pow_le_mono_r; lia). lia.
Qed.

(** The float quotient in [_subsec_decode] is exact on 30-bit arguments:
    [value * 10^9] is a multiple of [2^9] below [2^60], so the quotient by
    [2^30] has at most 51 significant bits. *)
Lemma subsec_decode_exact (f : Z) :
  0 <= f < 2 ^ 30 ->
  _subsec_decode f = Ok (- ((- (f * 10 ^ 9)) / 2 ^ 30)).
Proof.
  intros Hf. unfold _subsec_decode, int_truediv.
  change (2 ^ 30 =? 0) with false. cbv iota.
  destruct (Z.eq_dec f 0) as [->|Hf0]; [reflexivity|].
  destruct (f * 10 ^ 9) as [|pa|pa] eqn:Ha; try lia.
  cbn [float_of_exact].
  change (float_of_exact (2 ^ 30)) with (S754_finite false (2 ^ 30) 0).
  pose proof (digits2_pos_bounds pa) as Hwin.
  set (d := Zpos (digits2_pos pa)) in *.
  assert (Hd : 30 <= d <= 60).
  { split.
    - assert (2 ^ 29 < 2 ^ d) by lia.
      assert (29 < d) by (apply pow2_lt_inv; lia). lia.
    - assert (2 ^ (d - 1) < 2 ^ 60) by lia.
      assert (d - 1 < 60) by (apply pow2_lt_inv; lia). lia. }
  assert (Hp : 0 < 2 ^ (62 - d)) by (apply Z.pow_pos_nonneg; lia).
  destruct (f * 5 ^ 9 * 2 ^ (62 - d)) as [|pm|pm] eqn:Hm; try lia.
  assert (Hsplit : 2 ^ (84 - d) = 2 ^ (62 - d) * 2 ^ 22)
    by (rewrite <- Z.pow_add_r by lia; f_equal; lia).
  rewrite (truediv_2p30_exact pa pm d); [|reflexivity|lia|].
  - cbn [bind math_ceil].
    replace (0 <=? d - 83) with false by (symmetry; apply Z.leb_gt; lia).
    f_equal. f_equal.
    replace (- (d - 83)) with (21 + (62 - d)) by lia.
    rewrite Z.pow_add_r by lia.
    rewrite <- Hm.
    replace (- (f * 5 ^ 9 * 2 ^ (62 - d))) with (- (f * 5 ^ 9) * 2 ^ (62 - d))
      by lia.
    rewrite Z.div_mul_cancel_r by lia.
    change (2 ^ 30) with (2 ^ 21 * 2 ^ 9).
    replace (- Zpos pa) with (- (f * 5 ^ 9) * 2 ^ 9) by lia.
    rewrite Z.div_mul_cancel_r by lia. reflexivity.
  - rewrite Hsplit, <- Ha, <- Hm. lia.
Qed.

(** The division does round in general: [1 / 3] is the binary64 number
    [0x1.5555555555555p-2], and beyond 30 bits the decoded value is not
    the exact ceiling any more. *)
Example truediv_rounds :
  int_truediv 1 3 = Ok (S754_finite false 6004799503160661 (-54)).
Proof. reflexivity. Qed.

Example subsec_decode_rounds_beyond_30_bits :
  _subsec_decode (2 ^ 62 + 1) = Ok 4294967296000000000 /\
  (2 ^ 62 + 1) * 10 ^ 9 > 4294967296000000000 * 2 ^ 30.
Proof. split; [vm_compute; reflexivity | lia]. Qed.

Lemma ceiling_div_spec (a b : Z) :
  0 < b -> (- ((- a) / b) - 1) * b < a <= - ((- a) / b) * b.
Proof.
  intros Hb. pose proof (Z.div_mod (- a) b ltac:(lia)) as Hdm.
  pose proof (Z.mod_pos_bound (- a) b Hb) as Hmod. nia.
Qed.

(** C4. On every 30-bit fraction [f], [_subsec_decode] returns the
    integer ceiling of the exact quotient [f * 10^9 / 2^30]: the least
    [c] with [f * 10^9 <= c * 2^30].  The binary64 division it goes
    through loses nothing on these arguments. *)
Theorem subsec_decode_is_exact_ceiling (f : Z) :
  0 <= f < 2 ^ 30 ->
  exists c,
    _subsec_decode f = Ok c /\
    (c - 1) * 2 ^ 30 < f * 10 ^ 9 <= c * 2 ^ 30 /\
    c = (f * 10 ^ 9 + (2 ^ 30 - 1)) / 2 ^ 30.
Proof.
  intros Hf. exists (- ((- (f * 10 ^ 9)) / 2 ^ 30)).
  split; [now apply subsec_decode_exact|].
  pose proof (ceiling_div_spec (f * 10 ^ 9) (2 ^ 30) ltac:(lia)) as Hc.
  split; [exact Hc|].
  apply Z.div_unique with
    (r := f * 10 ^ 9 + (2 ^ 30 - 1) - 2 ^ 30 * - (- (f * 10 ^ 9) / 2 ^ 30));
    lia.
Qed.

Lemma subsec_decode_is_exact_ceiling_witness :
  0 <= 2 ^ 30 - 1 < 2 ^ 30 /\
  exists c,
    _subsec_decode (2 ^ 30 - 1) = Ok c /\
    (c - 1) * 2 ^ 30 < (2 ^ 30 - 1) * 10 ^ 9 <= c * 2 ^ 30 /\
    c = ((2 ^ 30 - 1) * 10 ^ 9 + (2 ^ 30 - 1)) / 2 ^ 30.
Proof.
  assert (H : 0 <= 2 ^ 30 - 1 < 2 ^ 30) by lia.
  split; [exact H|].
  exact (subsec_decode_is_exact_ceiling (2 ^ 30 - 1) H).
Defined.

(** Encoding then decoding a nanosecond count below one second gives the
    count back: the encoding step [2^-30] s is finer than a nanosecond. *)
Lemma subsec_round_trip_exact (n : Z) :
  0 <= n < 10 ^ 9 -> _subsec_decode (_subsec_encode n) = Ok n.
Proof.
  intros Hn.
  rewrite subsec_decode_exact by now apply subsec_encode_range.
  f_equal. unfold _subsec_encode.
  pose proof (ceiling_div_spec (n * 2 ^ 30 / 10 ^ 9 * 10 ^ 9) (2 ^ 30)
                ltac:(lia)) as Hc.
  pose proof (Z.div_mod (n * 2 ^ 30) (10 ^ 9) ltac:(lia)) as Hdm.
  pose proof (Z.mod_pos_bound (n * 2 ^ 30) (10 ^ 9) ltac:(lia)) as Hmod.
  lia.
Qed.

(** C5. For a nanosecond remainder [n] below [10^9], decoding the encoded
    fraction gives some [n'] with [n <= n'] and [n' - n < 2]. *)
Theorem subsec_round_trip_bounded (n : Z) :
  0 <= n < 10 ^ 9 ->
  exists n',
    _subsec_decode (_subsec_encode n) = Ok n' /\ n <= n' /\ n' - n < 2.
Proof.
  intros Hn. exists n.
  split; [now apply subsec_round_trip_exact|]. lia.
Qed.

Lemma subsec_round_trip_bounded_witness :
  0 <= 999999999 < 10 ^ 9 /\
  exists n',
    _subsec_decode (_subsec_encode 999999999) = Ok n' /\
    999999999 <= n' /\ n' - 999999999 < 2.
Proof.
  assert (H : 0 <= 999999999 < 10 ^ 9) by lia.
  split; [exact H|].
  exact (subsec_round_trip_bounded 999999999 H).
Defined.

(** ** Reading a version 7 UUID back *)

Section V7Read.
Import DraftUUID.
Variables timestamp_s subsec rand ver : Z.
Hypothesis Hver : 0 <= ver < 2 ^ 4.
Hypothesis Hsub : 0 <= subsec < 2 ^ 30.
Hypothesis Hrand : 0 <= rand < 2 ^ 56.

Local Notation "'generated'" :=
  (mkUUID (stamp (uuid7_pack timestamp_s subsec rand) ver)) (only parsing).

Lemma v7_subsec_reads_back : DraftUUID.subsec generated = subsec.
Proof.
  unfold DraftUUID.subsec, time_mid, time_hi_version, clock_seq_hi_variant,
    stamp, uuid7_pack. cbn [int].
  apply Z.bits_inj'. intros i Hi. mask_consts.
  cut_at i 6; [|cut_at i 18; [|cut_at i 30]]; bit_eval.
Qed.

Lemma v7_unixts_reads_back :
  DraftUUID.unixts generated = timestamp_s mod 2 ^ 36.
Proof.
  rewrite <- Z.land_ones by lia.
  unfold DraftUUID.unixts, time_low, time_mid, stamp, uuid7_pack. cbn [int].
  apply Z.bits_inj'. intros i Hi. mask_consts.
  cut_at i 4; [|cut_at i 36]; bit_eval.
Qed.
End V7Read.

(** A generated version 7 UUID reads back as the issued nanosecond count
    whenever the second count fits its 36-bit field. *)
Lemma uuid7_reads_back (env : Env) (st : ClockState) :
  randbits_ok env 56 ->
  0 <= uuid7_timestamp env st < 2 ^ 36 * 10 ^ 9 ->
  exists u,
    snd (uuid7 env st) = Ok u /\
    DraftUUID.time u = Ok (uuid7_timestamp env st).
Proof.
  intros Hr Ht. eexists. split; [now apply uuid7_returns|].
  set (ns := uuid7_timestamp env st) in *.
  assert (H7 : 0 <= 7 < 2 ^ 4) by (simpl; lia).
  assert (Hsub : 0 <= _subsec_encode (ns mod 10 ^ 9) < 2 ^ 30)
    by (apply subsec_encode_range; apply Z.mod_pos_bound; lia).
  unfold DraftUUID.time, version_is.
  rewrite tagged_version by assumption. cbn [Z.eqb Pos.eqb].
  rewrite v7_subsec_reads_back, v7_unixts_reads_back by assumption.
  rewrite subsec_round_trip_exact by (apply Z.mod_pos_bound; lia).
  cbn [bind]. f_equal.
  rewrite Z.mod_small
    by (split; [apply Z.div_pos; lia | apply Z.div_lt_upper_bound; lia]).
  pose proof (Z.div_mod ns (10 ^ 9) ltac:(lia)). lia.
Qed.

(** * Further properties *)

(** ** Accessors on arbitrary UUIDs *)

Lemma subsec_range (u : UUID) : 0 <= DraftUUID.subsec u < 2 ^ 30.
Proof.
  apply bits_bound; [lia|]. intros i Hi.
  unfold DraftUUID.subsec, time_mid, time_hi_version, clock_seq_hi_variant.
  mask_consts. bit_eval.
Qed.

Lemma unixts_is_top_bits (u : UUID) :
  DraftUUID.unixts u = Z.shiftr (int u) 92.
Proof.
  unfold DraftUUID.unixts, time_low, time_mid.
  apply Z.bits_inj'. intros i Hi. mask_consts.
  cut_at i 4; bit_eval.
Qed.

(** X6. The [time] accessor returns a value on every UUID, whatever its
    integer: the float conversion inside it cannot fail because [subsec]
    is always a 30-bit number.  On a version 7 UUID the value is
    [unixts * 10^9] plus the ceiling of [subsec * 10^9 / 2^30], a
    nanosecond part between 0 and [10^9] inclusive. *)
Theorem time_never_raises (u : UUID) :
  exists t,
    DraftUUID.time u = Ok t /\
    (version u = Some 7 ->
       exists ns, t = DraftUUID.unixts u * 10 ^ 9 + ns /\ 0 <= ns <= 10 ^ 9 /\
                  (ns - 1) * 2 ^ 30 < DraftUUID.subsec u * 10 ^ 9 <= ns * 2 ^ 30).
Proof.
  pose proof (subsec_range u) as Hs.
  unfold DraftUUID.time.
  destruct (version_is u 6) eqn:H6.
  - eexists. split; [reflexivity|].
    intros H7. unfold version_is in H6. rewrite H7 in H6. discriminate.
  - destruct (version_is u 7) eqn:H7.
    + rewrite subsec_decode_exact by assumption. cbn [bind].
      eexists. split; [reflexivity|]. intros _.
      eexists. split; [reflexivity|].
      pose proof (ceiling_div_spec (DraftUUID.subsec u * 10 ^ 9) (2 ^ 30)
                    ltac:(lia)) as Hc.
      split; [|exact Hc]. lia.
    + eexists. split; [reflexivity|].
      intros Hv. unfold version_is in H7. rewrite Hv in H7. discriminate.
Qed.

(** X7. On any UUID, [unixts] is the integer shifted right by 92 bits
    (the top 36 bits of a 128-bit value), and [subsec] is the 30-bit
    number made of bits 80-91, 64-75 and 56-61, in that order: the
    version nibble and the variant bits are skipped. *)
Theorem accessors_read_fields (u : UUID) :
  DraftUUID.unixts u = Z.shiftr (int u) 92 /\
  0 <= DraftUUID.subsec u < 2 ^ 30 /\
  bit_field (DraftUUID.subsec u) 18 12 = bit_field (int u) 80 12 /\
  bit_field (DraftUUID.subsec u) 6 12 = bit_field (int u) 64 12 /\
  bit_field (DraftUUID.subsec u) 0 6 = bit_field (int u) 56 6.
Proof.
  split; [apply unixts_is_top_bits|].
  split; [apply subsec_range|].
  unfold bit_field, DraftUUID.subsec, time_mid, time_hi_version,
    clock_seq_hi_variant.
  repeat split; apply Z.bits_inj'; intros i Hi; mask_consts.
  - cut_at i 12; bit_eval.
  - cut_at i 12; bit_eval.
  - cut_at i 6; bit_eval.
Qed.

(** ** Sub-second conversions *)

Lemma subsec_encode_increasing (n m : Z) :
  n < m -> _subsec_encode n < _subsec_encode m.
Proof.
  intros Hnm. unfold _subsec_encode.
  assert (H1 : n * 2 ^ 30 / 10 ^ 9 + 1 = (n * 2 ^ 30 + 1 * 10 ^ 9) / 10 ^ 9)
    by (rewrite Z.div_add by lia; reflexivity).
  assert (H2 : (n * 2 ^ 30 + 1 * 10 ^ 9) / 10 ^ 9 <= m * 2 ^ 30 / 10 ^ 9)
    by (apply Z.div_le_mono; lia).
  lia.
Qed.

(** X8. [_subsec_encode] is strictly increasing on all integers, hence
    injective, and maps a nanosecond remainder below [10^9] to a 30-bit
    fraction. *)
Theorem subsec_encode_order (n m : Z) :
  (n < m -> _subsec_encode n < _subsec_encode m) /\
  (_subsec_encode n = _subsec_encode m -> n = m) /\
  (0 <= n < 10 ^ 9 -> 0 <= _subsec_encode n < 2 ^ 30).
Proof.
  split; [apply subsec_encode_increasing|].
  split; [|apply subsec_encode_range].
  intros Heq.
  destruct (Z.lt_trichotomy n m) as [H|[H|H]]; [|exact H|];
    apply subsec_encode_increasing in H; lia.
Qed.

Lemma subsec_decode_value (f : Z) :
  0 <= f < 2 ^ 30 ->
  exists c, _subsec_decode f = Ok c /\
            (c - 1) * 2 ^ 30 < f * 10 ^ 9 <= c * 2 ^ 30.
Proof.
  intros Hf. eexists. split; [now apply subsec_decode_exact|].
  apply ceiling_div_spec. lia.
Qed.

(** X9. On 30-bit fractions [_subsec_decode] never raises, is monotone,
    never rounds below the exact quotient and stays within [[0, 10^9]];
    the upper end is reached: the largest fraction [2^30 - 1] decodes to
    a full [10^9] nanoseconds. *)
Theorem subsec_decode_monotone_bounded (f g : Z) :
  0 <= f -> f <= g -> g < 2 ^ 30 ->
  exists a b,
    _subsec_decode f = Ok a /\ _subsec_decode g = Ok b /\
    0 <= a /\ a <= b /\ b <= 10 ^ 9 /\
    f * 10 ^ 9 <= a * 2 ^ 30 /\
    (g = 2 ^ 30 - 1 -> b = 10 ^ 9).
Proof.
  intros Hf Hfg Hg.
  destruct (subsec_decode_value f ltac:(lia)) as (a & Ha & Hca).
  destruct (subsec_decode_value g ltac:(lia)) as (b & Hb & Hcb).
  exists a, b. repeat split; try assumption; lia.
Qed.

Lemma subsec_decode_monotone_bounded_witness :
  exists a b,
    _subsec_decode 0 = Ok a /\ _subsec_decode (2 ^ 30 - 1) = Ok b /\
    0 <= a /\ a <= b /\ b <= 10 ^ 9 /\
    0 * 10 ^ 9 <= a * 2 ^ 30 /\
    (2 ^ 30 - 1 = 2 ^ 30 - 1 -> b = 10 ^ 9).
Proof.
  apply (subsec_decode_monotone_bounded 0 (2 ^ 30 - 1)); lia.
Defined.

(** X10. Decoding a 30-bit fraction and encoding the result gives the
    fraction back or the next one up: [f <= encode (decode f) <= f + 1]. *)
Theorem subsec_decode_then_encode (f : Z) :
  0 <= f < 2 ^ 30 ->
  exists n,
    _subsec_decode f = Ok n /\
    f <= _subsec_encode n <= f + 1.
Proof.
  intros Hf. destruct (subsec_decode_value f Hf) as (n & Hn & Hc).
  exists n. split; [exact Hn|]. unfold _subsec_encode.
  split.
  - apply Z.div_le_lower_bound; lia.
  - assert (n * 2 ^ 30 / 10 ^ 9 < f + 2)
      by (apply Z.div_lt_upper_bound; lia).
    lia.
Qed.

Lemma subsec_decode_then_encode_witness :
  exists n, _subsec_decode 14 = Ok n /\ 14 <= _subsec_encode n <= 14 + 1.
Proof.
  apply (subsec_decode_then_encode 14). lia.
Defined.

Example subsec_decode_then_encode_moves :
  _subsec_decode 14 = Ok 14 /\ _subsec_encode 14 = 15.
Proof. split; reflexivity. Qed.

(** ** Fields as summands *)

Lemma bit_field_div_mod (x lo w : Z) :
  0 <= lo -> 0 <= w -> bit_field x lo w = (x / 2 ^ lo) mod 2 ^ w.
Proof.
  intros Hlo Hw. unfold bit_field.
  now rewrite Z.land_ones, Z.shiftr_div_pow2 by assumption.
Qed.

Lemma field_split (x lo w : Z) :
  0 <= lo -> 0 <= w ->
  x mod 2 ^ (lo + w) = bit_field x lo w * 2 ^ lo + x mod 2 ^ lo.
Proof.
  intros Hlo Hw. rewrite bit_field_div_mod by assumption.
  rewrite Z.pow_add_r by assumption.
  assert (0 < 2 ^ lo) by (apply Z.pow_pos_nonneg; lia).
  assert (0 < 2 ^ w) by (apply Z.pow_pos_nonneg; lia).
  rewrite Z.rem_mul_r by lia. lia.
Qed.

Lemma bit_field_range (x lo w : Z) :
  0 <= lo -> 0 <= w -> 0 <= bit_field x lo w < 2 ^ w.
Proof.
  intros Hlo Hw. rewrite bit_field_div_mod by assumption.
  apply Z.mod_pos_bound. apply Z.pow_pos_nonneg; lia.
Qed.

(** A 128-bit integer is the sum of the seven fields of the version 7
    layout, each at its offset. *)
Lemma v7_fields_sum (x : Z) :
  0 <= x < 2 ^ 128 ->
  x = bit_field x 92 36 * 2 ^ 92 + bit_field x 80 12 * 2 ^ 80
      + bit_field x 76 4 * 2 ^ 76 + bit_field x 64 12 * 2 ^ 64
      + bit_field x 62 2 * 2 ^ 62 + bit_field x 56 6 * 2 ^ 56
      + bit_field x 0 56.
Proof.
  intros Hx.
  pose proof (Z.mod_small x (2 ^ 128) Hx) as H128.
  pose proof (field_split x 92 36 ltac:(lia) ltac:(lia)) as H92.
  pose proof (field_split x 80 12 ltac:(lia) ltac:(lia)) as H80.
  pose proof (field_split x 76 4 ltac:(lia) ltac:(lia)) as H76.
  pose proof (field_split x 64 12 ltac:(lia) ltac:(lia)) as H64.
  pose proof (field_split x 62 2 ltac:(lia) ltac:(lia)) as H62.
  pose proof (field_split x 56 6 ltac:(lia) ltac:(lia)) as H56.
  pose proof (field_split x 0 56 ltac:(lia) ltac:(lia)) as H0.
  cbn [Z.add Pos.add Pos.succ Pos.add_carry] in *.
  change (2 ^ 0) with 1 in H0. rewrite Z.mod_1_r in H0.
  lia.
Qed.

(** The same for the six fields of the version 6 layout. *)
Lemma v6_fields_sum (x : Z) :
  0 <= x < 2 ^ 128 ->
  x = bit_field x 80 48 * 2 ^ 80 + bit_field x 76 4 * 2 ^ 76
      + bit_field x 64 12 * 2 ^ 64 + bit_field x 62 2 * 2 ^ 62
      + bit_field x 48 14 * 2 ^ 48 + bit_field x 0 48.
Proof.
  intros Hx.
  pose proof (Z.mod_small x (2 ^ 128) Hx) as H128.
  pose proof (field_split x 80 48 ltac:(lia) ltac:(lia)) as H80.
  pose proof (field_split x 76 4 ltac:(lia) ltac:(lia)) as H76.
  pose proof (field_split x 64 12 ltac:(lia) ltac:(lia)) as H64.
  pose proof (field_split x 62 2 ltac:(lia) ltac:(lia)) as H62.
  pose proof (field_split x 48 14 ltac:(lia) ltac:(lia)) as H48.
  pose proof (field_split x 0 48 ltac:(lia) ltac:(lia)) as H0.
  cbn [Z.add Pos.add Pos.succ Pos.add_carry] in *.
  change (2 ^ 0) with 1 in H0. rewrite Z.mod_1_r in H0.
  lia.
Qed.

Section V6Layout.
Import DraftUUID.
Variables timestamp clock_seq node ver : Z.
Hypothesis Hver : 0 <= ver < 2 ^ 4.
Hypothesis Hnode : 0 <= node < 2 ^ 48.

Local Notation "'packed'" :=
  (stamp (uuid6_int timestamp clock_seq node) ver) (only parsing).

Ltac field_bits i :=
  unfold bit_field, stamp, uuid6_int;
  apply Z.bits_inj'; intros i ?; mask_consts.

Lemma v6_field_time_high :
  bit_field packed 80 48 = Z.land (Z.shiftr timestamp 12) (Z.ones 48).
Proof. field_bits i. cut_at i 48; bit_eval. Qed.

Lemma v6_field_version : bit_field packed 76 4 = ver.
Proof. field_bits i. cut_at i 4; bit_eval. Qed.

Lemma v6_field_time_low :
  bit_field packed 64 12 = Z.land timestamp (Z.ones 12).
Proof. field_bits i. cut_at i 12; bit_eval. Qed.

Lemma v6_field_variant : bit_field packed 62 2 = 2.
Proof.
  change 2 with (2 ^ 1) at 2.
  field_bits i. cut_at i 1; [|cut_at i 2]; bit_eval.
Qed.

Lemma v6_field_clock_seq :
  bit_field packed 48 14 = Z.land clock_seq (Z.ones 14).
Proof. field_bits i. cut_at i 14; bit_eval. Qed.

Lemma v6_field_node : bit_field packed 0 48 = node.
Proof. field_bits i. cut_at i 48; bit_eval. Qed.

Lemma v6_time_fields_mod :
  let u := mkUUID packed in
  Z.lor (Z.lor (Z.shiftl (time_low u) 28) (Z.shiftl (time_mid u) 12))
        (Z.land (time_hi_version u) 0x0FFF) = Z.land timestamp (Z.ones 60).
Proof.
  intros u. subst u.
  unfold time_low, time_mid, time_hi_version, stamp, uuid6_int. cbn [int].
  apply Z.bits_inj'. intros i Hi. mask_consts.
  cut_at i 12; [|cut_at i 28; [|cut_at i 60]]; bit_eval.
Qed.
End V6Layout.

(** ** Generated UUIDs as sums of their fields *)

Lemma subsec_split (subsec : Z) :
  subsec = Z.shiftr subsec 18 * 2 ^ 18
           + Z.land (Z.shiftr subsec 6) 0x0FFF * 2 ^ 6
           + Z.land subsec 0x3F /\
  0 <= Z.land (Z.shiftr subsec 6) 0x0FFF < 2 ^ 12 /\
  0 <= Z.land subsec 0x3F < 2 ^ 6.
Proof.
  change 0x0FFF with (Z.ones 12). change 0x3F with (Z.ones 6).
  rewrite !Z.land_ones, !Z.shiftr_div_pow2 by lia.
  pose proof (Z.div_mod subsec (2 ^ 6) ltac:(lia)) as H6.
  pose proof (Z.div_mod (subsec / 2 ^ 6) (2 ^ 12) ltac:(lia)) as H12.
  rewrite Z.div_div in H12 by lia. change (2 ^ 6 * 2 ^ 12) with (2 ^ 18) in H12.
  pose proof (Z.mod_pos_bound subsec (2 ^ 6) ltac:(lia)).
  pose proof (Z.mod_pos_bound (subsec / 2 ^ 6) (2 ^ 12) ltac:(lia)).
  lia.
Qed.

Lemma v7_stamped_sum (timestamp_s subsec rand : Z) :
  0 <= subsec < 2 ^ 30 -> 0 <= rand < 2 ^ 56 ->
  DraftUUID.stamp (uuid7_pack timestamp_s subsec rand) 7
  = timestamp_s mod 2 ^ 36 * 2 ^ 92 + Z.shiftr subsec 18 * 2 ^ 80
    + 7 * 2 ^ 76 + Z.land (Z.shiftr subsec 6) 0x0FFF * 2 ^ 64
    + 2 * 2 ^ 62 + Z.land subsec 0x3F * 2 ^ 56 + rand.
Proof.
  intros Hsub Hrand.
  assert (H7 : 0 <= 7 < 2 ^ 4) by (simpl; lia).
  assert (Hx : 0 <= DraftUUID.stamp (uuid7_pack timestamp_s subsec rand) 7
               < 2 ^ 128)
    by (apply stamp_range; [assumption | now apply uuid7_pack_range]).
  rewrite (v7_fields_sum _ Hx) at 1.
  rewrite v7_field_seconds, v7_field_subsec_a, v7_field_version,
    v7_field_subsec_b, v7_field_variant, v7_field_subsec_c, v7_field_rand
    by assumption.
  reflexivity.
Qed.

Lemma v6_stamped_sum (timestamp clock_seq node : Z) :
  0 <= node < 2 ^ 48 ->
  DraftUUID.stamp (uuid6_int timestamp clock_seq node) 6
  = (timestamp / 2 ^ 12) mod 2 ^ 48 * 2 ^ 80 + 6 * 2 ^ 76
    + timestamp mod 2 ^ 12 * 2 ^ 64 + 2 * 2 ^ 62
    + clock_seq mod 2 ^ 14 * 2 ^ 48 + node.
Proof.
  intros Hnode.
  assert (H6 : 0 <= 6 < 2 ^ 4) by (simpl; lia).
  assert (Hx : 0 <= DraftUUID.stamp (uuid6_int timestamp clock_seq node) 6
               < 2 ^ 128)
    by (apply stamp_range; [assumption | now apply uuid6_int_range]).
  rewrite (v6_fields_sum _ Hx) at 1.
  rewrite v6_field_time_high, v6_field_version, v6_field_time_low,
    v6_field_variant, v6_field_clock_seq, v6_field_node by assumption.
  rewrite !Z.land_ones, Z.shiftr_div_pow2 by lia.
  reflexivity.
Qed.

Lemma v6_stamped_increasing (t1 t2 cs1 cs2 node1 node2 : Z) :
  0 <= t1 -> t1 < t2 -> t2 < 2 ^ 60 ->
  0 <= node1 < 2 ^ 48 -> 0 <= node2 < 2 ^ 48 ->
  DraftUUID.stamp (uuid6_int t1 cs1 node1) 6
  < DraftUUID.stamp (uuid6_int t2 cs2 node2) 6.
Proof.
  intros H1 H12 H2 Hn1 Hn2.
  rewrite !v6_stamped_sum by assumption.
  pose proof (Z.div_mod t1 (2 ^ 12) ltac:(lia)) as Hd1.
  pose proof (Z.div_mod t2 (2 ^ 12) ltac:(lia)) as Hd2.
  pose proof (Z.mod_pos_bound t1 (2 ^ 12) ltac:(lia)).
  pose proof (Z.mod_pos_bound t2 (2 ^ 12) ltac:(lia)).
  pose proof (Z.mod_pos_bound cs1 (2 ^ 14) ltac:(lia)).
  pose proof (Z.mod_pos_bound cs2 (2 ^ 14) ltac:(lia)).
  assert (Hq1 : 0 <= t1 / 2 ^ 12 < 2 ^ 48)
    by (split; [apply Z.div_pos; lia | apply Z.div_lt_upper_bound; lia]).
  assert (Hq2 : 0 <= t2 / 2 ^ 12 < 2 ^ 48)
    by (split; [apply Z.div_pos; lia | apply Z.div_lt_upper_bound; lia]).
  rewrite !(Z.mod_small (_ / 2 ^ 12) (2 ^ 48)) by assumption.
  lia.
Qed.

Lemma v7_stamped_increasing (n1 n2 rand1 rand2 : Z) :
  0 <= n1 -> n1 < n2 -> n2 < 2 ^ 36 * 10 ^ 9 ->
  0 <= rand1 < 2 ^ 56 -> 0 <= rand2 < 2 ^ 56 ->
  DraftUUID.stamp (uuid7_int n1 rand1) 7
  < DraftUUID.stamp (uuid7_int n2 rand2) 7.
Proof.
  intros H1 H12 H2 Hr1 Hr2. unfold uuid7_int, divmod.
  pose proof (Z.div_mod n1 (10 ^ 9) ltac:(lia)) as Hd1.
  pose proof (Z.div_mod n2 (10 ^ 9) ltac:(lia)) as Hd2.
  pose proof (Z.mod_pos_bound n1 (10 ^ 9) ltac:(lia)) as Hm1.
  pose proof (Z.mod_pos_bound n2 (10 ^ 9) ltac:(lia)) as Hm2.
  assert (Hs1 : 0 <= n1 / 10 ^ 9 < 2 ^ 36)
    by (split; [apply Z.div_pos; lia | apply Z.div_lt_upper_bound; lia]).
  assert (Hs2 : 0 <= n2 / 10 ^ 9 < 2 ^ 36)
    by (split; [apply Z.div_pos; lia | apply Z.div_lt_upper_bound; lia]).
  pose proof (subsec_encode_range _ Hm1) as He1.
  pose proof (subsec_encode_range _ Hm2) as He2.
  rewrite !v7_stamped_sum by assumption.
  rewrite !(Z.mod_small (_ / 10 ^ 9) (2 ^ 36)) by assumption.
  assert (Hlex : n1 / 10 ^ 9 < n2 / 10 ^ 9 \/
                 n1 / 10 ^ 9 = n2 / 10 ^ 9 /\
                 _subsec_encode (n1 mod 10 ^ 9) < _subsec_encode (n2 mod 10 ^ 9)).
  { destruct (Z.lt_trichotomy (n1 / 10 ^ 9) (n2 / 10 ^ 9)) as [H|[H|H]].
    - left; exact H.
    - right. split; [exact H|]. apply subsec_encode_increasing. lia.
    - exfalso. lia. }
  destruct (subsec_split (_subsec_encode (n1 mod 10 ^ 9))) as (Hsp1 & Hb1 & Hc1).
  destruct (subsec_split (_subsec_encode (n2 mod 10 ^ 9))) as (Hsp2 & Hb2 & Hc2).
  set (e1 := _subsec_encode (n1 mod 10 ^ 9)) in *.
  set (e2 := _subsec_encode (n2 mod 10 ^ 9)) in *.
  assert (Ha1 : 0 <= Z.shiftr e1 18 < 2 ^ 12).
  { rewrite Z.shiftr_div_pow2 by lia.
    split; [apply Z.div_pos; lia | apply Z.div_lt_upper_bound; lia]. }
  assert (Ha2 : 0 <= Z.shiftr e2 18 < 2 ^ 12).
  { rewrite Z.shiftr_div_pow2 by lia.
    split; [apply Z.div_pos; lia | apply Z.div_lt_upper_bound; lia]. }
  generalize dependent (Z.shiftr e1 18). generalize dependent (Z.shiftr e2 18).
  generalize dependent (Z.land (Z.shiftr e1 6) 0x0FFF).
  generalize dependent (Z.land (Z.shiftr e2 6) 0x0FFF).
  generalize dependent (Z.land e1 0x3F). generalize dependent (Z.land e2 0x3F).
  intros. lia.
Qed.


(** ** Generated UUIDs sort by generation order *)

Lemma step_returns (st : ClockState) (c : call) :
  random_source_ok c ->
  snd (step st c)
  = Ok (mkUUID (DraftUUID.stamp (assemble c (issued_by st c)) (version_of c))).
Proof.
  intros Hr. destruct c as [env cs|env]; cbn [step random_source_ok] in *.
  - rewrite uuid6_parts. cbn [snd assemble issued_by version_of].
    apply init_tagged; [now apply uuid6_int_range | lia].
  - rewrite uuid7_parts. cbn [snd assemble issued_by version_of].
    apply init_tagged; [now apply uuid7_int_range | lia].
Qed.

Lemma assemble_increasing (c1 c2 : call) (t1 t2 : Z) :
  kind_of c1 = kind_of c2 ->
  random_source_ok c1 -> random_source_ok c2 ->
  0 <= t1 -> t1 < t2 -> t2 < field_limit (kind_of c2) ->
  DraftUUID.stamp (assemble c1 t1) (version_of c1)
  < DraftUUID.stamp (assemble c2 t2) (version_of c2).
Proof.
  intros Hk Hr1 Hr2 H1 H12 H2.
  destruct c1 as [e1 cs1|e1], c2 as [e2 cs2|e2]; try discriminate;
    cbn [assemble version_of kind_of field_limit random_source_ok] in *.
  - now apply v6_stamped_increasing.
  - now apply v7_stamped_increasing.
Qed.

Lemma returned_sorted_above (k : kind) (calls : list call) :
  forall st,
    Forall random_source_ok calls ->
    Forall (fun t => 0 <= t < field_limit k) (issued k st calls) ->
    exists us,
      returned k st calls = map Ok us /\
      StronglySorted Z.lt (map int us) /\
      (forall c0 t0,
          kind_of c0 = k -> random_source_ok c0 -> 0 <= t0 ->
          Forall (Z.lt t0) (issued k st calls) ->
          Forall (Z.lt (DraftUUID.stamp (assemble c0 t0) (version_of c0)))
                 (map int us)).
Proof.
  induction calls as [|c calls IH]; intros st Hok Hrange;
    cbn [issued returned] in *.
  - exists []. split; [reflexivity|]. split; constructor.
  - inversion Hok as [|c' calls' Hc Hcalls]; subst.
    destruct (kind_eqb_spec (kind_of c) k) as [Hk|Hk].
    + inversion Hrange as [|t ts Ht Hts]; subst.
      destruct (IH (fst (step st c)) Hcalls Hts) as (us & Hus & Hsorted & Habove).
      exists (mkUUID (DraftUUID.stamp (assemble c (issued_by st c))
                        (version_of c)) :: us).
      pose proof (issued_sorted_above (kind_of c) calls (fst (step st c)))
        as [_ Hlater].
      specialize (Hlater _ (step_watermark_same _ st c eq_refl)).
      split; [cbn [map]; rewrite step_returns, Hus by assumption; reflexivity|].
      split.
      * cbn [map int]. constructor; [exact Hsorted|].
        apply Habove; try assumption; try reflexivity. lia.
      * intros c0 t0 Hk0 Hr0 Ht0 Hall. cbn [map int].
        inversion Hall as [|t' ts' Hlt Hrest]; subst.
        constructor; [|now apply Habove].
        apply assemble_increasing; try assumption; try congruence; lia.
    + destruct (IH (fst (step st c)) Hcalls Hrange) as (us & Hus & Hsorted & Habove).
      exists us. split; [exact Hus|]. split; [exact Hsorted|exact Habove].
Qed.

(** X1. UUIDs sort by generation order.  Over any sequence of [uuid6]
    and [uuid7] calls from any state, if the random source keeps its
    contract and the timestamps issued to the calls of one kind fit the
    timestamp field (60 bits of ticks for version 6, 36 bits of seconds
    for version 7), then every call of that kind returns a UUID and the
    integers of these UUIDs are strictly increasing, whatever the random
    bits and clock sequences. *)
Theorem returned_uuids_sorted (k : kind) (st : ClockState) (calls : list call) :
  Forall random_source_ok calls ->
  Forall (fun t => 0 <= t < field_limit k) (issued k st calls) ->
  exists us,
    returned k st calls = map Ok us /\
    StronglySorted Z.lt (map int us).
Proof.
  intros Hok Hrange.
  destruct (returned_sorted_above k calls st Hok Hrange) as (us & Hus & Hs & _).
  exists us. split; assumption.
Qed.

Lemma returned_uuids_sorted_witness :
  Forall random_source_ok sample_calls /\
  Forall (fun t => 0 <= t < field_limit V7)
         (issued V7 process_start sample_calls) /\
  exists us,
    returned V7 process_start sample_calls = map Ok us /\
    StronglySorted Z.lt (map int us).
Proof.
  assert (Hok : Forall random_source_ok sample_calls).
  { unfold sample_calls.
    repeat (apply Forall_cons;
            [unfold random_source_ok, randbits_ok; simpl; lia|]).
    apply Forall_nil. }
  assert (Hrange : Forall (fun t => 0 <= t < field_limit V7)
                          (issued V7 process_start sample_calls)).
  { replace (issued V7 process_start sample_calls)
      with [1645539742000000000; 1645539742000000001; 1645539742000000002]
      by (vm_compute; reflexivity).
    repeat (apply Forall_cons; [unfold field_limit; lia|]).
    apply Forall_nil. }
  split; [exact Hok|]. split; [exact Hrange|].
  exact (returned_uuids_sorted V7 process_start sample_calls Hok Hrange).
Defined.

(** ** What the accessors read from generated UUIDs *)

Lemma uuid6_returns_stamped (env : Env) (clock_seq : option Z) (st : ClockState) :
  randbits_ok env 48 ->
  snd (uuid6 env clock_seq st)
  = Ok (mkUUID (DraftUUID.stamp
                  (uuid6_int (uuid6_timestamp env st)
                     (match clock_seq with
                      | None => _getrandbits env 14
                      | Some c => c
                      end) (_getrandbits env 48)) 6)).
Proof.
  intros Hr. rewrite uuid6_parts. cbn [snd].
  apply init_tagged; [now apply uuid6_int_range | lia].
Qed.

(** X3. [time] of the UUID that [uuid6] returns is the issued timestamp
    reduced modulo [2^60]: the timestamp itself when it fits 60 bits, and
    silently wrapped, not rejected, when it does not. *)
Theorem uuid6_time_wraps (env : Env) (clock_seq : option Z) (st : ClockState) :
  randbits_ok env 48 ->
  exists u,
    snd (uuid6 env clock_seq st) = Ok u /\
    DraftUUID.time u = Ok (uuid6_timestamp env st mod 2 ^ 60) /\
    (0 <= uuid6_timestamp env st < 2 ^ 60 ->
     DraftUUID.time u = Ok (uuid6_timestamp env st)).
Proof.
  intros Hr. eexists. split; [now apply uuid6_returns_stamped|].
  assert (H6 : 0 <= 6 < 2 ^ 4) by (simpl; lia).
  assert (Ht : DraftUUID.time
                 (mkUUID (DraftUUID.stamp
                            (uuid6_int (uuid6_timestamp env st)
                               (match clock_seq with
                                | None => _getrandbits env 14
                                | Some c => c
                                end) (_getrandbits env 48)) 6))
               = Ok (uuid6_timestamp env st mod 2 ^ 60)).
  { unfold DraftUUID.time. rewrite tagged_version_is by assumption.
    f_equal. rewrite <- Z.land_ones by lia.
    now apply v6_time_fields_mod. }
  split; [exact Ht|].
  intros Hin. rewrite Ht. now rewrite Z.mod_small.
Qed.

Lemma uuid6_time_wraps_witness :
  randbits_ok edge_env 48 /\
  exists u,
    snd (uuid6 edge_env None edge_state) = Ok u /\
    DraftUUID.time u = Ok (uuid6_timestamp edge_env edge_state mod 2 ^ 60) /\
    (0 <= uuid6_timestamp edge_env edge_state < 2 ^ 60 ->
     DraftUUID.time u = Ok (uuid6_timestamp edge_env edge_state)).
Proof.
  assert (Hr : randbits_ok edge_env 48) by (unfold randbits_ok; simpl; lia).
  split; [exact Hr|].
  exact (uuid6_time_wraps edge_env None edge_state Hr).
Defined.

(** X4. On the UUID that [uuid7] returns, [unixts] is the issued second
    count modulo [2^36], [subsec] is the encoded fraction of the issued
    nanosecond remainder, and [time] is those seconds times [10^9] plus
    the remainder itself: the issued nanosecond count exactly when it
    lies in [[0, 2^36 * 10^9)]. *)
Theorem uuid7_time_wraps (env : Env) (st : ClockState) :
  randbits_ok env 56 ->
  exists u,
    snd (uuid7 env st) = Ok u /\
    DraftUUID.unixts u = (uuid7_timestamp env st / 10 ^ 9) mod 2 ^ 36 /\
    DraftUUID.subsec u = _subsec_encode (uuid7_timestamp env st mod 10 ^ 9) /\
    DraftUUID.time u
    = Ok ((uuid7_timestamp env st / 10 ^ 9) mod 2 ^ 36 * 10 ^ 9
          + uuid7_timestamp env st mod 10 ^ 9) /\
    (0 <= uuid7_timestamp env st < 2 ^ 36 * 10 ^ 9 ->
     DraftUUID.time u = Ok (uuid7_timestamp env st)).
Proof.
  intros Hr. eexists. split; [now apply uuid7_returns|].
  set (ns := uuid7_timestamp env st) in *.
  assert (H7 : 0 <= 7 < 2 ^ 4) by (simpl; lia).
  assert (Hsub : 0 <= _subsec_encode (ns mod 10 ^ 9) < 2 ^ 30)
    by (apply subsec_encode_range; apply Z.mod_pos_bound; lia).
  split; [now apply v7_unixts_reads_back|].
  split; [now apply v7_subsec_reads_back|].
  unfold DraftUUID.time, version_is.
  rewrite tagged_version by assumption. cbn [Z.eqb Pos.eqb].
  rewrite v7_subsec_reads_back, v7_unixts_reads_back by assumption.
  rewrite subsec_round_trip_exact by (apply Z.mod_pos_bound; lia).
  cbn [bind]. split; [reflexivity|].
  intros Hin. f_equal.
  rewrite Z.mod_small
    by (split; [apply Z.div_pos; lia | apply Z.div_lt_upper_bound; lia]).
  pose proof (Z.div_mod ns (10 ^ 9) ltac:(lia)). lia.
Qed.

Lemma uuid7_time_wraps_witness :
  randbits_ok vector_env 56 /\
  exists u,
    snd (uuid7 vector_env vector_state) = Ok u /\
    DraftUUID.unixts u
    = (uuid7_timestamp vector_env vector_state / 10 ^ 9) mod 2 ^ 36 /\
    DraftUUID.subsec u
    = _subsec_encode (uuid7_timestamp vector_env vector_state mod 10 ^ 9) /\
    DraftUUID.time u
    = Ok ((uuid7_timestamp vector_env vector_state / 10 ^ 9) mod 2 ^ 36
          * 10 ^ 9
          + uuid7_timestamp vector_env vector_state mod 10 ^ 9) /\
    (0 <= uuid7_timestamp vector_env vector_state < 2 ^ 36 * 10 ^ 9 ->
     DraftUUID.time u = Ok (uuid7_timestamp vector_env vector_state)).
Proof.
  assert (Hr : randbits_ok vector_env 56) by (unfold randbits_ok; simpl; lia).
  split; [exact Hr|].
  exact (uuid7_time_wraps vector_env vector_state Hr).
Defined.

(** X2. Every [uuid6] call returns a UUID laid out as
    [timestamp / 2^12 : 48][version 6 : 4][timestamp mod 2^12 : 12]
    [variant 10 : 2][clock_seq mod 2^14 : 14][node : 48].  A [clock_seq]
    argument wider than 14 bits, or negative, is reduced modulo [2^14]
    rather than rejected; the node is the 48-bit random read. *)
Theorem uuid6_layout (env : Env) (clock_seq : option Z) (st : ClockState) :
  randbits_ok env 48 ->
  let timestamp := uuid6_timestamp env st in
  let sequence := match clock_seq with
                  | None => randbits env 14
                  | Some c => c
                  end in
  exists u,
    snd (uuid6 env clock_seq st) = Ok u /\
    0 <= int u < 2 ^ 128 /\
    bit_field (int u) 80 48 = (timestamp / 2 ^ 12) mod 2 ^ 48 /\
    bit_field (int u) 76 4 = 6 /\
    bit_field (int u) 64 12 = timestamp mod 2 ^ 12 /\
    bit_field (int u) 62 2 = 2 /\
    bit_field (int u) 48 14 = sequence mod 2 ^ 14 /\
    bit_field (int u) 0 48 = randbits env 48.
Proof.
  intros Hr timestamp sequence.
  assert (H6 : 0 <= 6 < 2 ^ 4) by (simpl; lia).
  eexists. split; [now apply uuid6_returns_stamped|]. cbn [int].
  fold timestamp. unfold _getrandbits. fold sequence.
  split; [apply stamp_range; [assumption | now apply uuid6_int_range]|].
  split; [rewrite v6_field_time_high by assumption;
          now rewrite Z.land_ones, Z.shiftr_div_pow2 by lia|].
  split; [now apply v6_field_version|].
  split; [rewrite v6_field_time_low by assumption;
          now rewrite Z.land_ones by lia|].
  split; [now apply v6_field_variant|].
  split; [rewrite v6_field_clock_seq by assumption;
          now rewrite Z.land_ones by lia|].
  now apply v6_field_node.
Qed.

Lemma uuid6_layout_witness :
  randbits_ok vector6_env 48 /\
  exists u,
    snd (uuid6 vector6_env (Some 0xB3C8) vector6_state) = Ok u /\
    0 <= int u < 2 ^ 128 /\
    bit_field (int u) 80 48 = 0x1EC9414C232A /\
    bit_field (int u) 76 4 = 6 /\
    bit_field (int u) 64 12 = 0xB00 /\
    bit_field (int u) 62 2 = 2 /\
    bit_field (int u) 48 14 = 0x33C8 /\
    bit_field (int u) 0 48 = 0x9E6BDECED846.
Proof.
  assert (Hr : randbits_ok vector6_env 48) by (unfold randbits_ok; simpl; lia).
  split; [exact Hr|].
  exact (uuid6_layout vector6_env (Some 0xB3C8) vector6_state Hr).
Defined.

(** X5. The UUID returned by [uuid6] reports version 6 and the one
    returned by [uuid7] version 7 through the standard [version]
    accessor, and both report the RFC 4122 variant. *)
Theorem generated_version (st : ClockState) (c : call) :
  random_source_ok c ->
  exists u,
    snd (step st c) = Ok u /\
    variant u = RFC_4122 /\
    version u = Some (version_of c).
Proof.
  intros Hr. eexists. split; [now apply step_returns|].
  assert (Hv : 0 <= version_of c < 2 ^ 4) by (destruct c; simpl; lia).
  split; [now apply tagged_variant | now apply tagged_version].
Qed.

Lemma generated_version_witness :
  random_source_ok (CallV6 edge_env (Some (-1))) /\
  exists u,
    snd (step edge_state (CallV6 edge_env (Some (-1)))) = Ok u /\
    variant u = RFC_4122 /\
    version u = Some 6.
Proof.
  assert (Hr : random_source_ok (CallV6 edge_env (Some (-1))))
    by (unfold random_source_ok, randbits_ok; simpl; lia).
  split; [exact Hr|].
  exact (generated_version edge_state (CallV6 edge_env (Some (-1))) Hr).
Defined.

(** ** The constructor, once more *)

Lemma stamp_stamp (v a b : Z) :
  0 <= a < 2 ^ 4 -> 0 <= b < 2 ^ 4 ->
  DraftUUID.stamp (DraftUUID.stamp v a) b = DraftUUID.stamp v b.
Proof.
  intros Ha Hb. apply Z.bits_inj'. intros n Hn.
  destruct (tag_position n) eqn:Hp.
  - unfold tag_position in Hp.
    destruct (Z.eqb_spec n 62) as [->|]; [now rewrite !stamp_bit_62|].
    destruct (Z.eqb_spec n 63) as [->|]; [now rewrite !stamp_bit_63|].
    destruct (Z.leb_spec 76 n); destruct (Z.ltb_spec n 80); try discriminate.
    now rewrite !stamp_bit_version by lia.
  - pose proof (tag_position_false n Hp) as (H62 & H63 & H76).
    now rewrite !stamp_bit_frame by assumption.
Qed.

Lemma init_ok_inv (v : Z) (version : option Z) (u : UUID) :
  DraftUUID.__init__ v version = Ok u ->
  0 <= v < 2 ^ 128 /\
  match version with
  | None => u = mkUUID v
  | Some k => 6 <= k <= 7 /\ u = mkUUID (DraftUUID.stamp v k)
  end.
Proof.
  intros H. rewrite init_parts in H.
  destruct (Z_lt_dec v 0) as [Hneg|Hnn];
    [rewrite out_of_range_test in H by lia; discriminate|].
  destruct (Z_le_dec (2 ^ 128) v) as [Hbig|Hsmall];
    [rewrite out_of_range_test in H by lia; discriminate|].
  split; [lia|]. rewrite in_range_test in H by lia.
  destruct version as [k|].
  - destruct (Z.leb_spec 6 k); destruct (Z.leb_spec k 7);
      cbn [andb negb] in H; try discriminate.
    split; [lia|].
    rewrite std_init_ok in H by (apply stamp_range; [simpl|]; lia).
    now inversion H.
  - rewrite std_init_ok in H by lia. now inversion H.
Qed.

(** X11. Whenever the constructor returns a UUID, the argument was in
    [[0, 2^128)] and so is the integer of the UUID; without a version the
    integer is the argument verbatim, with a version [k] the version was
    6 or 7 and the UUID reports version [k] and the RFC 4122 variant. *)
Theorem construct_result (v : Z) (version : option Z) (u : UUID) :
  DraftUUID.__init__ v version = Ok u ->
  0 <= v < 2 ^ 128 /\
  0 <= int u < 2 ^ 128 /\
  match version with
  | None => int u = v
  | Some k => (k = 6 \/ k = 7) /\ StdUUID.version u = Some k /\
              StdUUID.variant u = RFC_4122
  end.
Proof.
  intros H. destruct (init_ok_inv v version u H) as [Hv Hu].
  split; [exact Hv|].
  destruct version as [k|].
  - destruct Hu as [Hk ->]. cbn [int].
    assert (H4 : 0 <= k < 2 ^ 4) by (simpl; lia).
    split; [now apply stamp_range|].
    split; [lia|].
    split; [now apply tagged_version | now apply tagged_variant].
  - subst u. cbn [int]. split; [exact Hv | reflexivity].
Qed.

Lemma construct_result_witness :
  DraftUUID.__init__ 5 (Some 7) = Ok (mkUUID (DraftUUID.stamp 5 7)) /\
  0 <= 5 < 2 ^ 128 /\
  0 <= int (mkUUID (DraftUUID.stamp 5 7)) < 2 ^ 128 /\
  (7 = 6 \/ 7 = 7) /\
  StdUUID.version (mkUUID (DraftUUID.stamp 5 7)) = Some 7 /\
  StdUUID.variant (mkUUID (DraftUUID.stamp 5 7)) = RFC_4122.
Proof.
  assert (H : DraftUUID.__init__ 5 (Some 7)
              = Ok (mkUUID (DraftUUID.stamp 5 7))) by reflexivity.
  split; [exact H|].
  exact (construct_result 5 (Some 7) _ H).
Defined.

(** X12. Constructing again from the integer of a constructed UUID:
    without a version or with the same version it gives the same UUID,
    and with another version it gives what the original integer gives
    with that version (only the version nibble is rewritten). *)
Theorem construct_again (v a b : Z) (u : UUID) :
  DraftUUID.__init__ v (Some a) = Ok u ->
  b = 6 \/ b = 7 ->
  DraftUUID.__init__ (int u) None = Ok u /\
  DraftUUID.__init__ (int u) (Some a) = Ok u /\
  DraftUUID.__init__ (int u) (Some b) = DraftUUID.__init__ v (Some b).
Proof.
  intros H Hb. destruct (init_ok_inv v (Some a) u H) as [Hv [Ha ->]].
  cbn [int].
  assert (Ha4 : 0 <= a < 2 ^ 4) by (simpl; lia).
  assert (Hb4 : 0 <= b < 2 ^ 4) by (simpl; lia).
  pose proof (stamp_range v a Ha4 Hv) as Hs.
  split; [now apply init_plain|].
  split.
  - rewrite init_tagged by lia. now rewrite stamp_stamp.
  - rewrite !init_tagged by lia. now rewrite stamp_stamp.
Qed.

Lemma construct_again_witness :
  DraftUUID.__init__ (2 ^ 128 - 1) (Some 6)
  = Ok (mkUUID (DraftUUID.stamp (2 ^ 128 - 1) 6)) /\
  DraftUUID.__init__ (DraftUUID.stamp (2 ^ 128 - 1) 6) None
  = Ok (mkUUID (DraftUUID.stamp (2 ^ 128 - 1) 6)) /\
  DraftUUID.__init__ (DraftUUID.stamp (2 ^ 128 - 1) 6) (Some 6)
  = Ok (mkUUID (DraftUUID.stamp (2 ^ 128 - 1) 6)) /\
  DraftUUID.__init__ (DraftUUID.stamp (2 ^ 128 - 1) 6) (Some 7)
  = DraftUUID.__init__ (2 ^ 128 - 1) (Some 7).
Proof.
  assert (H : DraftUUID.__init__ (2 ^ 128 - 1) (Some 6)
              = Ok (mkUUID (DraftUUID.stamp (2 ^ 128 - 1) 6)))
    by reflexivity.
  split; [exact H|].
  exact (construct_again (2 ^ 128 - 1) 6 7 _ H (or_intror eq_refl)).
Defined.

(** ** A clock that does not advance *)

Lemma stalled_clock (k : kind) (calls : list call) :
  forall st w,
    watermark k st = Some w ->
    Forall (fun c => kind_of c = k -> candidate c <= w) calls ->
    issued k st calls
    = map (fun i => w + 1 + Z.of_nat i)
          (seq 0 (List.length (issued k st calls))).
Proof.
  induction calls as [|c calls IH]; intros st w Hw Hall; cbn [issued].
  - reflexivity.
  - inversion Hall as [|c' calls' Hc Hrest]; subst.
    destruct (kind_eqb_spec (kind_of c) k) as [Hk|Hk].
    + assert (Hi : issued_by st c = w + 1).
      { rewrite issued_by_advance, Hk, Hw. unfold advance.
        specialize (Hc Hk). destruct (Z.leb_spec (candidate c) w); lia. }
      rewrite (IH (fst (step st c)) (w + 1)).
      * cbn [List.length seq map]. rewrite Hi. f_equal; [lia|].
        rewrite List.length_map, List.length_seq.
        rewrite <- seq_shift, map_map. apply map_ext. intros i. lia.
      * rewrite step_watermark_same by assumption. now rewrite Hi.
      * eapply Forall_impl; [|exact Hrest]. cbn beta. intros c0 H0 Hk0.
        specialize (H0 Hk0). lia.
    + apply IH; [|exact Hrest].
      now rewrite step_watermark_other.
Qed.

(** X13. While the clock does not get past the watermark the issued
    timestamps count up by one: over any sequence of calls in which every
    call of kind [k] reads a clock value at or below the watermark [w]
    that the sequence started with, the timestamps issued to that kind
    are [w + 1], [w + 2], ... in call order. *)
Theorem stalled_clock_counts_up
  (k : kind) (st : ClockState) (calls : list call) (w : Z) :
  watermark k st = Some w ->
  Forall (fun c => kind_of c = k -> candidate c <= w) calls ->
  issued k st calls
  = map (fun i => w + 1 + Z.of_nat i)
        (seq 0 (List.length (issued k st calls))).
Proof. intros Hw Hall. now apply stalled_clock. Qed.

Lemma stalled_clock_counts_up_witness :
  watermark V7 vector_state = Some 1 /\
  Forall (fun c => kind_of c = V7 -> candidate c <= 1) stalled_calls /\
  issued V7 vector_state stalled_calls
  = map (fun i => 1 + 1 + Z.of_nat i)
        (seq 0 (List.length (issued V7 vector_state stalled_calls))).
Proof.
  assert (Hw : watermark V7 vector_state = Some 1) by reflexivity.
  assert (Hall : Forall (fun c => kind_of c = V7 -> candidate c <= 1)
                        stalled_calls).
  { unfold stalled_calls.
    repeat (apply Forall_cons; [simpl; intros Hk; try discriminate Hk; lia|]).
    apply Forall_nil. }
  split; [exact Hw|]. split; [exact Hall|].
  exact (stalled_clock_counts_up V7 vector_state stalled_calls 1 Hw Hall).
Defined.
